(** * Text normalisation for ASR dataset preparation

    A shallow embedding of [text_tools.py] and [vaani_text_cleaner.py],
    and the properties of the two rule pipelines.

    Python strings are sequences of Unicode code points: a [str] is a
    [list Z].  Python values that are not text (None, numbers, ...)
    appear where the source tests [isinstance(text, str)].  Exceptions
    are an explicit [result].  The batch dictionary is a [gmap]. *)

From Stdlib Require Import ZArith Lia.
From stdpp Require Import base option list gmap strings.

(** ** Python strings *)

Abbreviation str := (list Z) (only parsing).

(** String literals of this file are written as UTF-8 text and decoded
    to code points, so that they read as in the Python source. *)
Fixpoint utf8_decode (need : nat) (acc : Z) (bs : list Z) : str :=
  match bs with
  | [] => []
  | b :: bs' =>
      match need with
      | O =>
          if (b <? 0x80)%Z then b :: utf8_decode 0 0%Z bs'
          else if (b <? 0xE0)%Z then utf8_decode 1 (Z.land b 0x1F) bs'
          else if (b <? 0xF0)%Z then utf8_decode 2 (Z.land b 0x0F) bs'
          else utf8_decode 3 (Z.land b 0x07) bs'
      | S k =>
          let acc' := (acc * 64 + Z.land b 0x3F)%Z in
          match k with
          | O => acc' :: utf8_decode 0 0%Z bs'
          | S _ => utf8_decode k acc' bs'
          end
      end
  end.

Definition u (s : string) : str :=
  utf8_decode 0 0%Z
    ((λ a, Z.of_N (Ascii.N_of_ascii a)) <$> String.list_ascii_of_string s).

(** *** Character tables of the Unicode database

    [str.isspace], [str.strip] and the regular expression class [\s]
    all use the same whitespace predicate of the interpreter. *)
Definition is_space (c : Z) : bool :=
  ((0x09 <=? c) && (c <=? 0x0D) || (0x1C <=? c) && (c <=? 0x20)
   || (c =? 0x85) || (c =? 0xA0) || (c =? 0x1680)
   || (0x2000 <=? c) && (c <=? 0x200A)
   || (c =? 0x2028) || (c =? 0x2029) || (c =? 0x202F) || (c =? 0x205F)
   || (c =? 0x3000))%Z.

Definition in_ranges (rs : list (Z * Z)) (c : Z) : bool :=
  existsb (λ r, (r.1 <=? c) && (c <=? r.2))%Z rs.

(** Code points with Numeric_Type=Decimal (general category Nd), the
    characters [str.isdecimal] accepts (Unicode 14.0). *)
Definition decimal_ranges : list (Z * Z) :=
  [ (0x30, 0x39); (0x660, 0x669); (0x6F0, 0x6F9); (0x7C0, 0x7C9);
    (0x966, 0x96F); (0x9E6, 0x9EF); (0xA66, 0xA6F); (0xAE6, 0xAEF);
    (0xB66, 0xB6F); (0xBE6, 0xBEF); (0xC66, 0xC6F); (0xCE6, 0xCEF);
    (0xD66, 0xD6F); (0xDE6, 0xDEF); (0xE50, 0xE59); (0xED0, 0xED9);
    (0xF20, 0xF29); (0x1040, 0x1049); (0x1090, 0x1099); (0x17E0, 0x17E9);
    (0x1810, 0x1819); (0x1946, 0x194F); (0x19D0, 0x19D9); (0x1A80, 0x1A89);
    (0x1A90, 0x1A99); (0x1B50, 0x1B59); (0x1BB0, 0x1BB9); (0x1C40, 0x1C49);
    (0x1C50, 0x1C59); (0xA620, 0xA629); (0xA8D0, 0xA8D9); (0xA900, 0xA909);
    (0xA9D0, 0xA9D9); (0xA9F0, 0xA9F9); (0xAA50, 0xAA59); (0xABF0, 0xABF9);
    (0xFF10, 0xFF19); (0x104A0, 0x104A9); (0x10D30, 0x10D39);
    (0x11066, 0x1106F); (0x110F0, 0x110F9); (0x11136, 0x1113F);
    (0x111D0, 0x111D9); (0x112F0, 0x112F9); (0x11450, 0x11459);
    (0x114D0, 0x114D9); (0x11650, 0x11659); (0x116C0, 0x116C9);
    (0x11730, 0x11739); (0x118E0, 0x118E9); (0x11950, 0x11959);
    (0x11C50, 0x11C59); (0x11D50, 0x11D59); (0x11DA0, 0x11DA9);
    (0x16A60, 0x16A69); (0x16AC0, 0x16AC9); (0x16B50, 0x16B59);
    (0x1D7CE, 0x1D7FF); (0x1E140, 0x1E149); (0x1E2F0, 0x1E2F9);
    (0x1E950, 0x1E959); (0x1FBF0, 0x1FBF9) ]%Z.

(** Code points with Numeric_Type=Digit: superscripts, subscripts,
    circled and parenthesised digits and the like. *)
Definition other_digit_ranges : list (Z * Z) :=
  [ (0xB2, 0xB3); (0xB9, 0xB9); (0x1369, 0x1371); (0x19DA, 0x19DA);
    (0x2070, 0x2070); (0x2074, 0x2079); (0x2080, 0x2089); (0x2460, 0x2468);
    (0x2474, 0x247C); (0x2488, 0x2490); (0x24EA, 0x24EA); (0x24F5, 0x24FD);
    (0x24FF, 0x24FF); (0x2776, 0x277E); (0x2780, 0x2788); (0x278A, 0x2792);
    (0x10A40, 0x10A43); (0x10E60, 0x10E68); (0x11052, 0x1105A);
    (0x1F100, 0x1F10A) ]%Z.

Definition is_decimal (c : Z) : bool := in_ranges decimal_ranges c.

(** A digit in the sense of [str.isdigit]: Numeric_Type Decimal or Digit. *)
Definition is_digit (c : Z) : bool :=
  is_decimal c || in_ranges other_digit_ranges c.

Definition is_ascii (c : Z) : bool := ((0 <=? c) && (c <? 128))%Z.

Definition ascii_lower (c : Z) : Z :=
  if ((0x41 <=? c) && (c <=? 0x5A))%Z then (c + 32)%Z else c.

(** *** String methods *)

(** [bool(s)] of a string: non-empty. *)
Definition nonempty (s : str) : bool :=
  match s with [] => false | _ :: _ => true end.

(** [s.isspace()]: at least one character, all of them whitespace. *)
Definition isspace (s : str) : bool := nonempty s && forallb is_space s.

(** [s.isdigit()]: at least one character, all of them digits. *)
Definition isdigit (s : str) : bool := nonempty s && forallb is_digit s.

(** [s.replace(c, '')] for a one-character [c]. *)
Definition replace_char_empty (c : Z) (s : str) : str :=
  filter (λ x, x ≠ c) s.

(** [s.split(sep)] for a one-character separator: never empty. *)
Fixpoint split (sep : Z) (s : str) : list str :=
  match s with
  | [] => [[]]
  | c :: s' =>
      if decide (c = sep) then [] :: split sep s'
      else match split sep s' with
           | w :: ws => (c :: w) :: ws
           | [] => [[c]]
           end
  end.

Fixpoint lstrip (s : str) : str :=
  match s with
  | [] => []
  | c :: s' => if is_space c then lstrip s' else s
  end.

Fixpoint rstrip (s : str) : str :=
  match s with
  | [] => []
  | c :: s' =>
      match rstrip s' with
      | [] => if is_space c then [] else [c]
      | r => c :: r
      end
  end.

(** [s.strip()]. *)
Definition strip (s : str) : str := rstrip (lstrip s).

(** ** Python values and exceptions *)

(** [VBytes] is a [bytes] or [bytearray] object: not a string, but with a
    [split] method of its own. *)
Inductive value :=
  | VNone
  | VBool (b : bool)
  | VInt (n : Z)
  | VBytes (b : list Z)
  | VStr (s : str).

(** [isinstance(v, str)]. *)
Definition is_str (v : value) : bool :=
  match v with VStr _ => true | _ => false end.

(** [isinstance(v, (bytes, bytearray))]. *)
Definition is_bytes (v : value) : bool :=
  match v with VBytes _ => true | _ => false end.

(** [bool(v)]. *)
Definition truthy (v : value) : bool :=
  match v with
  | VNone => false
  | VBool b => b
  | VInt n => negb (n =? 0)%Z
  | VBytes b => nonempty b
  | VStr s => nonempty s
  end.

Inductive exn :=
  | KeyError (k : str)
  | IndexError
  | AttributeError
  | TypeError.

(** What [v.split('_')] raises when [v] is not a string: None, a bool and
    an int have no [split]; the [split] of bytes refuses a string
    separator. *)
Definition split_error (v : value) : exn :=
  match v with VBytes _ => TypeError | _ => AttributeError end.

Inductive result (A : Type) :=
  | Ok (a : A)
  | Raise (e : exn).
Arguments Ok {A} a.
Arguments Raise {A} e.

#[global] Instance result_ret : MRet result := λ A a, Ok a.
#[global] Instance result_bind : MBind result := λ A B f m,
  match m with Ok a => f a | Raise e => Raise e end.

(** [d[k]]. *)
Definition getitem {V} (d : gmap (list Z) V) (k : str) : result V :=
  match d !! k with Some v => Ok v | None => Raise (KeyError k) end.

(** [l[i]]. *)
Definition getindex {A} (l : list A) (i : nat) : result A :=
  match l !! i with Some x => Ok x | None => Raise IndexError end.

(** ** Regular expression substitution

    Every pattern of the program matches at least one character, so a
    pattern is modelled by its match at a position: given the character
    at the position and the text after it, the number of further
    characters the match consumes, or [None] when the pattern does not
    match there. *)
Definition pattern := Z → str → option nat.

(** [re.sub(p, repl, s)]: scan left to right; at a match emit [repl] and
    skip the matched characters, otherwise copy one character. *)
Fixpoint sub_from (p : pattern) (repl : str) (skip : nat) (s : str) : str :=
  match s with
  | [] => []
  | c :: s' =>
      match skip with
      | S k => sub_from p repl k s'
      | O =>
          match p c s' with
          | Some n => repl ++ sub_from p repl n s'
          | None => c :: sub_from p repl 0 s'
          end
      end
  end.

Definition re_sub (p : pattern) (repl : str) (s : str) : str :=
  sub_from p repl 0 s.

(** Length of the longest prefix whose characters satisfy [f]. *)
Fixpoint span_len (f : Z → bool) (s : str) : nat :=
  match s with
  | [] => 0
  | c :: s' => if f c then S (span_len f s') else 0
  end.

(** A character class [[...]]: one character of the set. *)
Definition re_class (cls : list Z) : pattern :=
  λ c _, if decide (c ∈ cls) then Some 0 else None.

(** [\s+]: a maximal run of whitespace. *)
Definition re_spaces : pattern :=
  λ c s, if is_space c then Some (span_len is_space s) else None.

(** [--+]: a maximal run of two or more hyphens. *)
Definition re_dashes : pattern :=
  λ c s,
    if decide (c = 0x2D%Z) then
      match s with
      | d :: s' =>
          if decide (d = 0x2D%Z) then Some (S (span_len (Z.eqb 0x2D) s'))
          else None
      | [] => None
      end
    else None.

(** The tail of a delimited pattern: characters up to and including the
    first [close], none of which may be [blocked]. *)
Fixpoint scan_to (close : Z) (blocked : Z → bool) (s : str) : option nat :=
  match s with
  | [] => None
  | d :: s' =>
      if decide (d = close) then Some 1
      else if blocked d then None
      else S <$> scan_to close blocked s'
  end.

(** [o[^c]*c], as in [\{[^}]*\}]: the negated class takes every character
    up to the first [c], line feeds included. *)
Definition re_negclass (o c : Z) : pattern :=
  λ x s, if decide (x = o) then scan_to c (λ _, false) s else None.

(** [o.*?c], as in [\[.*?\]]: the lazy dot extends one character at a
    time up to the first [c]; the dot does not match a line feed. *)
Definition re_lazydot (o c : Z) : pattern :=
  λ x s, if decide (x = o) then scan_to c (Z.eqb 0x0A) s else None.

(** ** The Unicode database

    NFC normalisation and case mapping come from the interpreter's
    Unicode database, which is not part of the program: they are the
    operations of a class.  The one fact used about them is that
    [str.lower] maps ASCII text to its ASCII lower case. *)
Class UnicodeDB := {
  unicodedata_normalize_NFC : str → str;
  str_lower : str → str;
}.

Definition lower_on_ascii (U : UnicodeDB) : Prop :=
  ∀ s, forallb is_ascii s = true → str_lower s = ascii_lower <$> s.

(** The database restricted to ASCII text, where NFC changes nothing and
    lower-casing maps A-Z to a-z; other code points are left alone.  The
    examples on ASCII language tags and texts are run on it. *)
Definition ascii_db : UnicodeDB := {|
  unicodedata_normalize_NFC := λ s, s;
  str_lower := fmap ascii_lower;
|}.

(** ** text_tools.py *)
Module text_tools.

(** The part every pattern starts with: the ASCII punctuation, written
    with escapes in the source. *)
Definition ascii_class : list Z :=
  u "!" ++ [0x22%Z] ++ u "#$%&'()*+,-./:;<=>?@[\]^_`{|}~".

Definition zh_class : list Z :=
  ascii_class ++ u "。，、；：？！…—·ˉ¨" ++ [0x22%Z; 0x22%Z]
    ++ u "々～‖∶＂＇｀｜〃〔〕〈〉《》「」『』．〖〗【】（）［］｛｝".

Definition ja_class : list Z :=
  ascii_class ++ u "。、・；：？！…ー～〜「」『』（）｛｝［］【】《》〈〉〔〕".

Definition ko_class : list Z :=
  ascii_class ++ u "。、；：？！…—～·ㆍ「」『』（）｛｝［］【】《》〈〉〔〕".

(** Language-specific punctuation to remove: each value is the set of
    the pattern's character class. *)
Definition PUNCTUATION_PATTERNS : gmap (list Z) (list Z) :=
  <[u "default" := ascii_class]>
  (<[u "zh" := zh_class]>
  (<[u "ja" := ja_class]>
  (<[u "ko" := ko_class]> ∅))).

Section functions.
Context {U : UnicodeDB}.

Definition normalize_unicode (text : str) : str :=
  unicodedata_normalize_NFC text.

Definition remove_punctuation (text : str) (language_code : value)
    : result str :=
  match language_code with
  | VStr code =>
      first ← getindex (split 0x5F code) 0;
      let lang_key := str_lower first in
      dflt ← getitem PUNCTUATION_PATTERNS (u "default");
      let pattern := default dflt (PUNCTUATION_PATTERNS !! lang_key) in
      mret (re_sub (re_class pattern) [] text)
  | VBytes _ => Raise TypeError
  | VNone | VBool _ | VInt _ => Raise AttributeError
  end.

Definition remove_extra_whitespace (text : str) : str :=
  let text := re_sub re_spaces [0x20%Z] text in
  strip text.

(** [True] when the text is kept, [False] when it is filtered. *)
Definition remove_digit_only_words (text : str) : bool :=
  let text_no_space := replace_char_empty 0x20 text in
  if nonempty text_no_space && isdigit text_no_space then false else true.

Definition remove_brackets_content (text : str) : str :=
  let text := re_sub (re_lazydot 0x5B 0x5D) [] text in
  let text := re_sub (re_lazydot 0x3C 0x3E) [] text in
  let text := re_sub (re_lazydot 0x7B 0x7D) [] text in
  let text := re_sub (re_lazydot 0x28 0x29) [] text in
  text.

Record config := {
  lower_case : bool;
  remove_numbers : bool;
  remove_brackets : bool;
}.

Definition default_config : config :=
  {| lower_case := true; remove_numbers := false; remove_brackets := false |}.

(** [None] is the drop signal. *)
Definition text_normalize (text language_code : value) (cfg : config)
    : result (option str) :=
  if negb (truthy text) || negb (is_str text) then Ok None
  else
    match text with
    | VStr text =>
        let text := normalize_unicode text in
        let text :=
          if remove_brackets cfg then remove_brackets_content text else text in
        text ← remove_punctuation text language_code;
        let text := if lower_case cfg then str_lower text else text in
        let text := remove_extra_whitespace text in
        if remove_numbers cfg && negb (remove_digit_only_words text)
        then Ok None
        else if negb (nonempty text) || isspace text then Ok None
        else Ok (Some text)
    | _ => Ok None
    end.

(** [normalized if normalized else ''], the empty string marking a drop. *)
Definition or_empty (normalized : option str) : str :=
  match normalized with
  | Some s => if nonempty s then s else []
  | None => []
  end.

Definition batch_normalize_text (batch : gmap (list Z) (list value))
    (text_column language_column : str) (cfg : config)
    : result (gmap (list Z) (list value)) :=
  languages ←
    (if decide (is_Some (batch !! language_column))
     then getitem batch language_column
     else texts ← getitem batch text_column;
          mret (replicate (length texts) (VStr (u "en"))));
  texts ← getitem batch text_column;
  normalized_texts ←
    mapM (λ '(text, lang),
            normalized ← text_normalize text lang cfg;
            mret (VStr (or_empty normalized)))
         (zip texts languages);
  mret (<[text_column := normalized_texts]> batch).

End functions.
End text_tools.

(** ** vaani_text_cleaner.py *)
Module vaani_text_cleaner.

Definition clean_vaani_transcript (text : value) : str :=
  if negb (truthy text) || negb (is_str text) then []
  else
    match text with
    | VStr text =>
        let text := re_sub (re_negclass 0x7B 0x7D) [] text in
        let text := re_sub (re_negclass 0x3C 0x3E) [] text in
        let text := re_sub re_dashes [] text in
        let text := re_sub re_spaces [0x20%Z] text in
        let text := strip text in
        text
    | _ => []
    end.

Definition devanagari_punct : str := u "।॥?!,;:.'" ++ [0x22%Z].

Definition normalize_vaani_transcript (text : value)
    (remove_punctuation : bool) : str :=
  let text := clean_vaani_transcript text in
  if negb (nonempty text) then []
  else
    let text :=
      if remove_punctuation
      then foldl (λ text punct, replace_char_empty punct text)
                 text devanagari_punct
      else text in
    strip (re_sub re_spaces [0x20%Z] text).

Definition batch_clean_vaani_transcripts (batch : gmap (list Z) (list value))
    (text_column : str) : result (gmap (list Z) (list value)) :=
  texts ← getitem batch text_column;
  let cleaned_texts : list value :=
    (λ text,
       let cleaned := normalize_vaani_transcript text false in
       VStr (if nonempty cleaned then cleaned else [])) <$> texts in
  mret (<[text_column := cleaned_texts]> batch).

End vaani_text_cleaner.

Import text_tools vaani_text_cleaner.

(** ** Vocabulary of the specification *)

(** The words of a text: its maximal runs of non-whitespace characters. *)
Fixpoint words (s : str) : list str :=
  match s with
  | [] => []
  | c :: s' =>
      if is_space c then words s'
      else
        match s' with
        | d :: _ =>
            if is_space d then [c] :: words s'
            else
              match words s' with
              | w :: ws => (c :: w) :: ws
              | [] => [[c]]
              end
        | [] => [[c]]
        end
  end.

(** The words joined by single ASCII spaces. *)
Fixpoint join_words (ws : list str) : str :=
  match ws with
  | [] => []
  | w :: ws' =>
      match ws' with
      | [] => w
      | _ :: _ => w ++ 0x20%Z :: join_words ws'
      end
  end.

(** Every word is non-empty and free of whitespace. *)
Definition is_word (w : str) : Prop :=
  w ≠ [] ∧ Forall (λ c, is_space c = false) w.

(** The text is empty or starts with a character that is not whitespace. *)
Definition starts_nonspace (s : str) : Prop :=
  match s with [] => True | d :: _ => is_space d = false end.

(** No opener [o] is followed, anywhere later in the text, by a closer
    [c]: the text holds no complete [o ... c] pair. *)
Definition no_pair (o c : Z) (s : str) : Prop :=
  ∀ pre rest, s = pre ++ o :: rest → c ∉ rest.

(** [f] removes every substring delimited by [o] and the next [c]: the
    first opener goes with everything up to the nearest closer behind
    it and the rest is treated in the same way; a text without a
    complete pair is returned as it is. *)
Definition removes_to_next (o c : Z) (f : str → str) : Prop :=
  (∀ pre mid post,
     o ∉ pre → c ∉ mid →
     f (pre ++ o :: mid ++ c :: post) = pre ++ f post)
  ∧ (∀ s, no_pair o c s → f s = s).

(** The same when a line feed between the opener and its nearest closer
    prevents the removal: the opener then stays and the scan goes on
    right behind it. *)
Definition removes_to_next_on_line (o c : Z) (f : str → str) : Prop :=
  (∀ pre mid post,
     o ∉ pre → c ∉ mid → 0x0A%Z ∉ mid →
     f (pre ++ o :: mid ++ c :: post) = pre ++ f post)
  ∧ (∀ pre mid post,
     o ∉ pre → c ∉ mid → 0x0A%Z ∉ mid →
     f (pre ++ o :: mid ++ 0x0A%Z :: post)
     = pre ++ o :: f (mid ++ 0x0A%Z :: post))
  ∧ (∀ s, no_pair o c s → f s = s).

(** The text holds no run of two or more hyphens. *)
Definition no_dash_run (s : str) : Prop :=
  ∀ pre rest, s ≠ pre ++ 0x2D%Z :: 0x2D%Z :: rest.

(** [f] deletes every maximal run of two or more hyphens. *)
Definition removes_dash_runs (f : str → str) : Prop :=
  (∀ pre n post,
     no_dash_run pre → last pre ≠ Some 0x2D%Z →
     2 ≤ n → head post ≠ Some 0x2D%Z →
     f (pre ++ replicate n 0x2D%Z ++ post) = pre ++ f post)
  ∧ (∀ s, no_dash_run s → f s = s).

(** The common shape of the two delimited patterns. *)
Definition re_delim (o c : Z) (blocked : Z → bool) : pattern :=
  λ x s, if decide (x = o) then scan_to c blocked s else None.

Local Abbreviation collapse := (re_sub re_spaces [0x20%Z]).
Local Abbreviation dashes := (re_sub re_dashes []).

(** The text before the first occurrence of the separator. *)
Fixpoint before_sep (sep : Z) (s : str) : str :=
  match s with
  | [] => []
  | c :: s' => if decide (c = sep) then [] else c :: before_sep sep s'
  end.

(** The text before the first hyphen or underscore. *)
Fixpoint before_hyphen_or_underscore (s : str) : str :=
  match s with
  | [] => []
  | c :: s' =>
      if decide (c = 0x2D%Z ∨ c = 0x5F%Z) then []
      else c :: before_hyphen_or_underscore s'
  end.

(** The punctuation profile of a language key: one of the three language
    profiles, or the default one. *)
Definition profile (key : str) : list Z :=
  if decide (key = u "zh") then zh_class
  else if decide (key = u "ja") then ja_class
  else if decide (key = u "ko") then ko_class
  else ascii_class.

(** Deleting the characters of a set wherever they occur. *)
Definition delete_chars (cls : list Z) (s : str) : str :=
  filter (λ c, c ∉ cls) s.

(** The ASCII punctuation characters, [string.punctuation]. *)
Definition is_ascii_punct (c : Z) : bool :=
  ((0x21 <=? c) && (c <=? 0x2F) || (0x3A <=? c) && (c <=? 0x40)
   || (0x5B <=? c) && (c <=? 0x60) || (0x7B <=? c) && (c <=? 0x7E))%Z.

(** The language tags of the rows of a batch of [n] rows: the language
    column when the batch has one, the tag "en" otherwise. *)
Definition languages_of (batch : gmap (list Z) (list value))
    (language_column : str) (n : nat) : list value :=
  default (replicate n (VStr (u "en"))) (batch !! language_column).

(** The ASCII letters. *)
Definition is_ascii_alpha (c : Z) : bool :=
  ((0x41 <=? c) && (c <=? 0x5A) || (0x61 <=? c) && (c <=? 0x7A))%Z.

(** Characters no punctuation profile touches: whitespace, digits and
    ASCII letters. *)
Definition is_kept (c : Z) : bool :=
  is_space c || is_digit c || is_ascii_alpha c.

(** A whitespace character of the text is never followed by another. *)
Definition no_double_space (s : str) : Prop :=
  ∀ pre c d post,
    s = pre ++ c :: d :: post → is_space c = true → is_space d = false.

(** * Properties *)

(** ** Substitution, one match at a time *)

Lemma length_ind {A} (P : list A → Prop) :
  (∀ s, (∀ t, length t < length s → P t) → P s) → ∀ s, P s.
Proof.
  intros H s. remember (length s) as n eqn:Hn. revert s Hn.
  induction (lt_wf n) as [n _ IH]. intros s ->. apply H.
  intros t Ht. by eapply IH.
Qed.

Lemma sub_from_drop p r k s : sub_from p r k s = sub_from p r 0 (drop k s).
Proof.
  revert k. induction s as [|c s IH]; intros [|k]; simpl; done.
Qed.

Lemma re_sub_nil p r : re_sub p r [] = [].
Proof. done. Qed.

(** The equation of [re.sub]: after a match the scan resumes behind it. *)
Lemma re_sub_cons p r c s :
  re_sub p r (c :: s) =
    match p c s with
    | Some n => r ++ re_sub p r (drop n s)
    | None => c :: re_sub p r s
    end.
Proof.
  unfold re_sub; simpl. destruct (p c s); [by rewrite sub_from_drop|done].
Qed.

(** Deleting matches leaves a subsequence of the text. *)
Lemma re_sub_sublist p s : re_sub p [] s `sublist_of` s.
Proof.
  induction s as [s IH] using length_ind. destruct s as [|c s]; [done|].
  rewrite re_sub_cons. destruct (p c s) as [n|].
  - simpl. apply sublist_cons. trans (drop n s); [|apply sublist_drop].
    apply IH. simpl. rewrite length_drop. lia.
  - apply sublist_skip, IH. simpl; lia.
Qed.

Lemma re_sub_not_elem p s x : x ∉ s → x ∉ re_sub p [] s.
Proof. intros Hx Hin. apply Hx. eapply elem_of_sublist, re_sub_sublist; done. Qed.

(** Text before the first character a pattern can start with is copied. *)
Lemma re_sub_app_nomatch p r pre s :
  (∀ x t, x ∈ pre → p x t = None) →
  re_sub p r (pre ++ s) = pre ++ re_sub p r s.
Proof.
  induction pre as [|x pre IH]; intros Hp; [done|].
  simpl. rewrite re_sub_cons, Hp by left. f_equal. apply IH.
  intros y t Hy. apply Hp. by right.
Qed.

(** ** Whitespace *)

Arguments is_space : simpl never.

Lemma span_len_lstrip s : drop (span_len is_space s) s = lstrip s.
Proof.
  induction s as [|c s IH]; [done|]. simpl. by destruct (is_space c).
Qed.

Lemma collapse_space c s :
  is_space c = true → collapse (c :: s) = 0x20%Z :: collapse (lstrip s).
Proof.
  intros Hc. rewrite re_sub_cons. unfold re_spaces at 1. rewrite Hc.
  by rewrite span_len_lstrip.
Qed.

Lemma collapse_nonspace c s :
  is_space c = false → collapse (c :: s) = c :: collapse s.
Proof. intros Hc. rewrite re_sub_cons. unfold re_spaces at 1. by rewrite Hc. Qed.

Lemma lstrip_starts s : starts_nonspace (lstrip s).
Proof.
  induction s as [|c s IH]; [done|]. simpl.
  destruct (is_space c) eqn:Hc; [done|]. by simpl.
Qed.

Lemma lstrip_id s : starts_nonspace s → lstrip s = s.
Proof. destruct s as [|c s]; [done|]. simpl. by intros ->. Qed.

Lemma lstrip_length s : length (lstrip s) ≤ length s.
Proof.
  induction s as [|c s IH]; [done|]. simpl.
  destruct (is_space c); simpl; lia.
Qed.

Lemma collapse_starts s : starts_nonspace s → starts_nonspace (collapse s).
Proof.
  destruct s as [|c s]; [done|]. simpl. intros Hc.
  by rewrite collapse_nonspace.
Qed.

Lemma lstrip_collapse s : lstrip (collapse s) = collapse (lstrip s).
Proof.
  destruct s as [|c s]; [done|]. destruct (is_space c) eqn:Hc.
  - rewrite collapse_space by done. simpl. rewrite Hc.
    change (lstrip (collapse (lstrip s)) = collapse (lstrip s)).
    apply lstrip_id, collapse_starts, lstrip_starts.
  - rewrite collapse_nonspace by done. simpl. rewrite Hc.
    by rewrite collapse_nonspace.
Qed.

Lemma rstrip_nonspace c s :
  is_space c = false → rstrip (c :: s) = c :: rstrip s.
Proof. intros Hc. simpl. rewrite Hc. by destruct (rstrip s). Qed.

Lemma rstrip_space c s :
  is_space c = true →
  rstrip (c :: s) = match rstrip s with [] => [] | r => c :: r end.
Proof. intros Hc. simpl. rewrite Hc. by destruct (rstrip s). Qed.

Lemma words_lstrip s : words (lstrip s) = words s.
Proof.
  induction s as [|c s IH]; [done|]. simpl.
  destruct (is_space c) eqn:Hc; [done|]. simpl. by rewrite Hc.
Qed.

Lemma words_space c s : is_space c = true → words (c :: s) = words s.
Proof. intros Hc. simpl. by rewrite Hc. Qed.

Lemma words_nonspace_nil c : is_space c = false → words [c] = [[c]].
Proof. intros Hc. simpl. by rewrite Hc. Qed.

Lemma words_nonspace_space c d s :
  is_space c = false → is_space d = true →
  words (c :: d :: s) = [c] :: words s.
Proof. intros Hc Hd. simpl. by rewrite Hc, Hd. Qed.

Lemma words_nonspace_nonspace c d s :
  is_space c = false → is_space d = false →
  ∃ w ws, words (d :: s) = w :: ws ∧ words (c :: d :: s) = (c :: w) :: ws.
Proof.
  intros Hc Hd. change (words (c :: d :: s)) with
    (if is_space c then words (d :: s)
     else if is_space d then [c] :: words (d :: s)
     else match words (d :: s) with
          | w :: ws => (c :: w) :: ws | [] => [[c]] end).
  rewrite Hc, Hd. destruct (words (d :: s)) as [|w ws] eqn:Hw; [|by eauto].
  exfalso. revert Hw. simpl. rewrite Hd.
  destruct s as [|e s]; [done|]. destruct (is_space e); [done|].
  by destruct (words (e :: s)).
Qed.

Lemma words_are_words s : Forall is_word (words s).
Proof.
  induction s as [|c s IH]; [constructor|].
  destruct (is_space c) eqn:Hc; [by rewrite words_space|].
  destruct s as [|d s].
  { rewrite words_nonspace_nil by done. repeat constructor; done. }
  destruct (is_space d) eqn:Hd.
  - rewrite words_nonspace_space by done. rewrite words_space in IH by done.
    constructor; [|done]. split; [done|]. by repeat constructor.
  - destruct (words_nonspace_nonspace c d s Hc Hd) as (w & ws & Hw & ->).
    rewrite Hw in IH. inversion_clear IH as [|?? [? ?] ?].
    constructor; [|done]. split; [done|]. by constructor.
Qed.

Lemma join_words_cons2 w w' ws :
  join_words (w :: w' :: ws) = w ++ 0x20%Z :: join_words (w' :: ws).
Proof. done. Qed.

Lemma join_words_nil_inv ws :
  Forall is_word ws → join_words ws = [] → ws = [].
Proof.
  destruct ws as [|w ws]; [done|]. intros [[Hw _] _]%Forall_cons.
  destruct ws; simpl; [done|]. by destruct w.
Qed.

(** After the collapse, trimming the right end joins the words. *)
Lemma rstrip_collapse_words s :
  starts_nonspace s → rstrip (collapse s) = join_words (words s).
Proof.
  induction s as [s IH] using length_ind. destruct s as [|c s]; [done|].
  intros Hc. change (is_space c = false) in Hc.
  rewrite collapse_nonspace by done.
  rewrite rstrip_nonspace by done.
  destruct s as [|d s].
  { by rewrite words_nonspace_nil. }
  destruct (is_space d) eqn:Hd.
  - rewrite words_nonspace_space, collapse_space by done.
    rewrite rstrip_space by done. rewrite <-(words_lstrip s).
    rewrite IH; [|simpl; pose proof (lstrip_length s); lia|apply lstrip_starts].
    destruct (join_words (words (lstrip s))) as [|x r] eqn:Hj.
    + apply join_words_nil_inv in Hj; [|apply words_are_words].
      by rewrite Hj.
    + destruct (words (lstrip s)) as [|w ws]; [done|].
      rewrite join_words_cons2, Hj. done.
  - destruct (words_nonspace_nonspace c d s Hc Hd) as (w & ws & Hw & ->).
    rewrite IH, Hw; [|simpl; lia|done].
    destruct ws; done.
Qed.

Lemma strip_collapse_words s : strip (collapse s) = join_words (words s).
Proof.
  unfold strip. rewrite lstrip_collapse, rstrip_collapse_words, words_lstrip.
  - done.
  - apply lstrip_starts.
Qed.

Lemma words_word_space w s :
  is_word w → words (w ++ 0x20%Z :: s) = w :: words s.
Proof.
  intros [Hne Hw]. induction Hw as [|c w Hc Hw IH]; [done|].
  destruct w as [|d w].
  - simpl app. by rewrite words_nonspace_space.
  - inversion_clear Hw as [|?? Hd ?].
    destruct (words_nonspace_nonspace c d (w ++ 0x20%Z :: s) Hc Hd)
      as (w1 & ws & Hw1 & Hw2).
    simpl app in *. rewrite Hw2. rewrite IH in Hw1 by done.
    by simplify_eq.
Qed.

Lemma words_word w : is_word w → words w = [w].
Proof.
  intros [Hne Hw]. induction Hw as [|c w Hc Hw IH]; [done|].
  destruct w as [|d w].
  - by rewrite words_nonspace_nil.
  - inversion_clear Hw as [|?? Hd ?].
    destruct (words_nonspace_nonspace c d w Hc Hd) as (w1 & ws & Hw1 & Hw2).
    rewrite Hw2. rewrite IH in Hw1 by done. by simplify_eq.
Qed.

Lemma words_join_words ws : Forall is_word ws → words (join_words ws) = ws.
Proof.
  induction 1 as [|w ws Hw Hws IH]; [done|].
  destruct ws as [|w' ws]; [by apply words_word|].
  rewrite join_words_cons2, words_word_space by done. by rewrite IH.
Qed.

Lemma remove_extra_whitespace_words s :
  remove_extra_whitespace s = join_words (words s).
Proof. apply strip_collapse_words. Qed.

Lemma remove_extra_whitespace_idem s :
  remove_extra_whitespace (remove_extra_whitespace s)
  = remove_extra_whitespace s.
Proof.
  rewrite !remove_extra_whitespace_words, words_join_words; [done|].
  apply words_are_words.
Qed.

Lemma lstrip_suffix s : lstrip s `suffix_of` s.
Proof.
  induction s as [|c s IH]; [done|]. simpl.
  destruct (is_space c); [by apply suffix_cons_r|done].
Qed.

Lemma rstrip_prefix s : rstrip s `prefix_of` s.
Proof.
  induction s as [|c s IH]; [done|]. simpl.
  destruct (rstrip s) as [|x r].
  - destruct (is_space c); [apply prefix_nil|]. apply prefix_cons, prefix_nil.
  - by apply prefix_cons.
Qed.

Lemma collapse_elem x s : x ∈ collapse s → x = 0x20%Z ∨ x ∈ s.
Proof.
  induction s as [s IH] using length_ind. destruct s as [|c s].
  { by intros ?%elem_of_nil. }
  destruct (is_space c) eqn:Hc.
  - rewrite collapse_space by done. intros [->|Hx]%elem_of_cons; [by left|].
    apply IH in Hx as [->|Hx]; [by left| |].
    + right. right. destruct (lstrip_suffix s) as [k Hk].
      rewrite Hk. apply elem_of_app. by right.
    + simpl. pose proof (lstrip_length s). lia.
  - rewrite collapse_nonspace by done.
    intros [->|Hx]%elem_of_cons; [right; by left|].
    apply IH in Hx as [->|Hx]; [by left|right; by right|simpl; lia].
Qed.

Lemma collapse_head s x :
  is_space x = false → head (collapse s) = Some x → head s = Some x.
Proof.
  intros Hx. destruct s as [|c s]; [done|]. destruct (is_space c) eqn:Hc.
  - rewrite collapse_space by done. simpl. intros [= <-]. done.
  - by rewrite collapse_nonspace.
Qed.

(** ** Delimited patterns *)

Section delimited.
Context (o c : Z) (blocked : Z → bool).

Local Abbreviation pass := (re_sub (re_delim o c blocked) []).

Lemma scan_to_no_close s : c ∉ s → scan_to c blocked s = None.
Proof.
  induction s as [|d s IH]; [done|]. intros [Hd Hs]%not_elem_of_cons.
  simpl. rewrite decide_False by done. rewrite IH by done.
  by destruct (blocked d).
Qed.

Lemma scan_to_first mid post :
  c ∉ mid → Forall (λ x, blocked x = false) mid →
  scan_to c blocked (mid ++ c :: post) = Some (S (length mid)).
Proof.
  induction mid as [|d mid IH]; simpl.
  { intros _ _. by rewrite decide_True. }
  intros [Hd Hs]%not_elem_of_cons [Hb Hm]%Forall_cons.
  rewrite decide_False, Hb, IH by done. done.
Qed.

Lemma scan_to_blocked mid b post :
  c ∉ mid → Forall (λ x, blocked x = false) mid →
  blocked b = true → b ≠ c →
  scan_to c blocked (mid ++ b :: post) = None.
Proof.
  induction mid as [|d mid IH]; simpl.
  { intros _ _ Hb Hbc. by rewrite decide_False, Hb. }
  intros [Hd Hs]%not_elem_of_cons [Hb Hm]%Forall_cons ??.
  rewrite decide_False, Hb, IH by done. done.
Qed.

Lemma pass_pre pre s : o ∉ pre → pass (pre ++ s) = pre ++ pass s.
Proof.
  intros Hpre. apply re_sub_app_nomatch. intros x t Hx. unfold re_delim.
  rewrite decide_False; [done|]. by intros ->.
Qed.

Lemma pass_first mid post :
  c ∉ mid → Forall (λ x, blocked x = false) mid →
  pass (o :: mid ++ c :: post) = pass post.
Proof.
  intros Hc Hb. rewrite re_sub_cons. unfold re_delim at 1.
  rewrite decide_True, scan_to_first by done. simpl. f_equal.
  rewrite (cons_middle c mid post), app_assoc.
  apply drop_app_length'. rewrite length_app. simpl. lia.
Qed.

Lemma pass_blocked mid b post :
  c ∉ mid → Forall (λ x, blocked x = false) mid →
  blocked b = true → b ≠ c →
  pass (o :: mid ++ b :: post) = o :: pass (mid ++ b :: post).
Proof.
  intros. rewrite re_sub_cons. unfold re_delim at 1.
  by rewrite decide_True, scan_to_blocked.
Qed.

Lemma no_pair_nil : no_pair o c [].
Proof. intros [|??] ??; done. Qed.

Lemma no_pair_cons x s :
  no_pair o c (x :: s) ↔ (x = o → c ∉ s) ∧ no_pair o c s.
Proof.
  split.
  - intros H. split.
    + intros ->. by apply (H []).
    + intros pre rest ->. by apply (H (x :: pre)).
  - intros [H1 H2] [|y pre] rest; simpl; intros [= ??]; subst; eauto.
Qed.

Lemma no_pair_sublist s t :
  t `sublist_of` s → no_pair o c s → no_pair o c t.
Proof.
  induction 1 as [|x t s Hts IH|x t s Hts IH].
  - done.
  - rewrite !no_pair_cons. intros [H1 H2]. split; [|by apply IH].
    intros Hx Hin. apply (H1 Hx). by eapply elem_of_sublist.
  - rewrite no_pair_cons. intros [_ H2]. by apply IH.
Qed.

Lemma pass_no_pair s : no_pair o c s → pass s = s.
Proof.
  induction s as [|x s IH]; [done|]. rewrite no_pair_cons. intros [H1 H2].
  rewrite re_sub_cons. unfold re_delim at 1.
  destruct (decide (x = o)) as [Hx|Hx].
  - rewrite scan_to_no_close by auto. by rewrite IH.
  - by rewrite IH.
Qed.

End delimited.

Lemma scan_to_unblocked_None c s :
  scan_to c (λ _, false) s = None → c ∉ s.
Proof.
  induction s as [|d s IH]; [intros _; apply not_elem_of_nil|].
  simpl. destruct (decide (d = c)); [done|].
  destruct (scan_to c (λ _, false) s); [done|]. intros _.
  apply not_elem_of_cons. split; [done|]. by apply IH.
Qed.

(** After the pass of a negated-class pattern no complete pair is left. *)
Lemma negclass_no_pair o c s : no_pair o c (re_sub (re_negclass o c) [] s).
Proof.
  induction s as [s IH] using length_ind. destruct s as [|x s].
  { apply no_pair_nil. }
  rewrite re_sub_cons. destruct (re_negclass o c x s) as [n|] eqn:Hp.
  - simpl. apply IH. simpl. rewrite length_drop. lia.
  - apply no_pair_cons. split; [|apply IH; simpl; lia].
    intros ->. apply re_sub_not_elem. apply scan_to_unblocked_None.
    revert Hp. unfold re_negclass. by rewrite decide_True.
Qed.

Lemma negclass_id o c s :
  no_pair o c s → re_sub (re_negclass o c) [] s = s.
Proof. apply (pass_no_pair o c (λ _, false)). Qed.

Lemma negclass_removes_to_next o c :
  removes_to_next o c (re_sub (re_negclass o c) []).
Proof.
  split.
  - intros pre mid post Ho Hc.
    rewrite (pass_pre o c (λ _, false)) by done. f_equal.
    apply (pass_first o c (λ _, false)); [done|].
    by apply Forall_forall.
  - apply (pass_no_pair o c (λ _, false)).
Qed.

Lemma lazydot_removes_to_next_on_line o c :
  c ≠ 0x0A%Z → removes_to_next_on_line o c (re_sub (re_lazydot o c) []).
Proof.
  intros Hnl.
  assert (∀ mid : str, 0x0A%Z ∉ mid → Forall (λ x, (0x0A =? x)%Z = false) mid)
    as Hmid.
  { intros mid Hm. apply Forall_forall. intros x Hx. apply Z.eqb_neq.
    by intros <-. }
  split; [|split].
  - intros pre mid post Ho Hc Hm.
    rewrite (pass_pre o c (Z.eqb 0x0A)) by done. f_equal.
    apply (pass_first o c (Z.eqb 0x0A)); auto.
  - intros pre mid post Ho Hc Hm.
    rewrite (pass_pre o c (Z.eqb 0x0A)) by done. f_equal.
    apply (pass_blocked o c (Z.eqb 0x0A)); auto.
  - apply (pass_no_pair o c (Z.eqb 0x0A)).
Qed.

(** ** Hyphen runs *)

Lemma dashes_other x s : x ≠ 0x2D%Z → dashes (x :: s) = x :: dashes s.
Proof.
  intros Hx. rewrite re_sub_cons. unfold re_dashes at 1.
  by rewrite decide_False.
Qed.

Lemma dashes_single s :
  head s ≠ Some 0x2D%Z → dashes (0x2D%Z :: s) = 0x2D%Z :: dashes s.
Proof.
  intros Hs. rewrite re_sub_cons. unfold re_dashes at 1.
  rewrite decide_True by done. destruct s as [|d s]; [done|].
  rewrite decide_False; [done|]. intros ->. done.
Qed.

Lemma dashes_run s :
  dashes (0x2D%Z :: 0x2D%Z :: s) = dashes (drop (span_len (Z.eqb 0x2D) s) s).
Proof.
  rewrite re_sub_cons. unfold re_dashes at 1.
  by rewrite !decide_True.
Qed.

Lemma span_drop_head s :
  head (drop (span_len (Z.eqb 0x2D) s) s) ≠ Some 0x2D%Z.
Proof.
  induction s as [|d s IH]; [done|]. cbn [span_len].
  destruct (0x2D =? d)%Z eqn:Hd; [done|].
  cbn [drop head]. intros [= ->]. done.
Qed.

Lemma span_replicate n post :
  head post ≠ Some 0x2D%Z →
  drop (span_len (Z.eqb 0x2D) (replicate n 0x2D%Z ++ post))
       (replicate n 0x2D%Z ++ post) = post.
Proof.
  intros Hp. induction n as [|n IH]; [|done].
  destruct post as [|d post]; [done|]. cbn [replicate app span_len].
  destruct (0x2D =? d)%Z eqn:Hd; [|done].
  apply Z.eqb_eq in Hd as <-. done.
Qed.

Lemma dashes_head s :
  head s ≠ Some 0x2D%Z → head (dashes s) ≠ Some 0x2D%Z.
Proof.
  destruct s as [|x s]; [done|]. simpl. intros Hx.
  rewrite dashes_other by congruence. done.
Qed.

Lemma no_dash_run_nil : no_dash_run [].
Proof. intros [|??] ??; done. Qed.

Lemma no_dash_run_cons x s :
  no_dash_run (x :: s) ↔
    ¬ (x = 0x2D%Z ∧ head s = Some 0x2D%Z) ∧ no_dash_run s.
Proof.
  split.
  - intros H. split.
    + intros [-> Hs]. destruct s as [|d s]; [done|]. simplify_eq/=.
      by apply (H [] s).
    + intros pre rest ->. by apply (H (x :: pre) rest).
  - intros [H1 H2] [|y pre] rest; simpl; intros [= ??]; subst.
    + by apply H1.
    + by apply (H2 pre rest).
Qed.

Lemma no_dash_run_suffix s t :
  t `suffix_of` s → no_dash_run s → no_dash_run t.
Proof.
  intros [k ->] H pre rest ->. apply (H (k ++ pre) rest).
  by rewrite <-app_assoc.
Qed.

Lemma no_dash_run_prefix s t :
  t `prefix_of` s → no_dash_run s → no_dash_run t.
Proof.
  intros [k ->] H pre rest ->. apply (H pre (rest ++ k)).
  by rewrite <-app_assoc.
Qed.

Lemma dashes_no_dash_run s : no_dash_run (dashes s).
Proof.
  induction s as [s IH] using length_ind. destruct s as [|x s].
  { apply no_dash_run_nil. }
  destruct (decide (x = 0x2D%Z)) as [->|Hx].
  - destruct s as [|d s].
    { rewrite dashes_single by done. apply no_dash_run_cons.
      split; [by intros [_ ?]|apply no_dash_run_nil]. }
    destruct (decide (d = 0x2D%Z)) as [->|Hd].
    + rewrite dashes_run. apply IH. simpl. rewrite length_drop. lia.
    + rewrite dashes_single by (simpl; congruence).
      apply no_dash_run_cons. split; [|apply IH; simpl; lia].
      intros [_ Hh]. revert Hh. apply dashes_head. simpl. congruence.
  - rewrite dashes_other by done. apply no_dash_run_cons.
    split; [by intros [? _]|apply IH; simpl; lia].
Qed.

Lemma dashes_id s : no_dash_run s → dashes s = s.
Proof.
  induction s as [|x s IH]; [done|]. rewrite no_dash_run_cons.
  intros [H1 H2]. destruct (decide (x = 0x2D%Z)) as [->|Hx].
  - rewrite dashes_single, IH; [done..|]. intros Hs. by apply H1.
  - by rewrite dashes_other, IH.
Qed.

Lemma collapse_no_dash_run s : no_dash_run s → no_dash_run (collapse s).
Proof.
  induction s as [s IH] using length_ind. destruct s as [|x s]; [done|].
  intros Hs. pose proof Hs as [H1 H2]%no_dash_run_cons.
  destruct (is_space x) eqn:Hx.
  - rewrite collapse_space by done. apply no_dash_run_cons.
    split; [by intros [? _]|]. apply IH.
    + simpl. pose proof (lstrip_length s). lia.
    + eapply no_dash_run_suffix; [apply lstrip_suffix|done].
  - rewrite collapse_nonspace by done. apply no_dash_run_cons.
    split; [|apply IH; [simpl; lia|done]].
    intros [-> Hh]. apply H1. split; [done|].
    by apply collapse_head in Hh.
Qed.

Lemma strip_no_dash_run s : no_dash_run s → no_dash_run (strip s).
Proof.
  intros Hs. unfold strip.
  eapply no_dash_run_prefix; [apply rstrip_prefix|].
  eapply no_dash_run_suffix; [apply lstrip_suffix|done].
Qed.

Lemma dashes_removes_dash_runs : removes_dash_runs dashes.
Proof.
  split; [|apply dashes_id].
  intros pre n post Hpre Hlast Hn Hpost.
  induction pre as [|x pre IH].
  - destruct n as [|[|n]]; [lia..|]. simpl.
    by rewrite dashes_run, span_replicate.
  - apply no_dash_run_cons in Hpre as [H1 H2]. simpl.
    assert (last pre ≠ Some 0x2D%Z) as Hlast'.
    { destruct pre; [done|]. by rewrite last_cons_cons in Hlast. }
    destruct (decide (x = 0x2D%Z)) as [->|Hx].
    + rewrite dashes_single, IH; [done..|].
      destruct pre as [|y pre]; [done|]. simpl. intros [= ->].
      by apply H1.
    + by rewrite dashes_other, IH.
Qed.

(** ** The characterisations determine the passes *)

Lemma no_pair_no_close o c s : c ∉ s → no_pair o c s.
Proof.
  intros Hc pre rest -> Hin. apply Hc, elem_of_app. right. by right.
Qed.

Lemma pair_split o c s :
  no_pair o c s
  ∨ ∃ pre mid post,
      s = pre ++ o :: mid ++ c :: post ∧ (o ∉ pre) ∧ (c ∉ mid).
Proof.
  induction s as [|x s IH]; [left; apply no_pair_nil|].
  destruct (decide (x = o)) as [->|Hx].
  - destruct (decide (c ∈ s)) as [Hc|Hc].
    + right. apply list_elem_of_split_l in Hc as (mid & post & -> & Hmid).
      exists [], mid, post. split; [done|]. split; [apply not_elem_of_nil|done].
    + left. apply no_pair_cons. split; [done|]. by apply no_pair_no_close.
  - destruct IH as [IH|(pre & mid & post & -> & Hpre & Hmid)].
    + left. apply no_pair_cons. by split.
    + right. exists (x :: pre), mid, post. split; [done|].
      split; [|done]. apply not_elem_of_cons. by split; [intros <-|].
Qed.

Lemma removes_to_next_unique o c f g :
  removes_to_next o c f → removes_to_next o c g → ∀ s, f s = g s.
Proof.
  intros [Hf1 Hf2] [Hg1 Hg2] s. induction s as [s IH] using length_ind.
  destruct (pair_split o c s) as [Hs|(pre & mid & post & -> & Hpre & Hmid)].
  - by rewrite Hf2, Hg2.
  - rewrite Hf1, Hg1 by done. f_equal. apply IH.
    rewrite length_app. simpl. rewrite length_app. simpl. lia.
Qed.

Lemma removes_to_next_on_line_unique o c f g :
  removes_to_next_on_line o c f → removes_to_next_on_line o c g →
  ∀ s, f s = g s.
Proof.
  intros (Hf1 & Hf2 & Hf3) (Hg1 & Hg2 & Hg3) s.
  induction s as [s IH] using length_ind.
  destruct (pair_split o c s) as [Hs|(pre & mid & post & -> & Hpre & Hmid)].
  { by rewrite Hf3, Hg3. }
  destruct (decide (0x0A%Z ∈ mid)) as [Hnl|Hnl].
  - apply list_elem_of_split_l in Hnl as (m1 & m2 & -> & Hm1).
    apply not_elem_of_app in Hmid as [Hc1 _].
    rewrite <-!app_assoc. simpl.
    rewrite Hf2, Hg2 by done. do 2 f_equal. apply IH.
    rewrite !length_app. simpl. rewrite !length_app. simpl. lia.
  - rewrite Hf1, Hg1 by done. f_equal. apply IH.
    rewrite length_app. simpl. rewrite length_app. simpl. lia.
Qed.

Lemma dash_run_split s :
  no_dash_run s
  ∨ ∃ pre n post,
      s = pre ++ replicate n 0x2D%Z ++ post
      ∧ no_dash_run pre ∧ last pre ≠ Some 0x2D%Z
      ∧ 2 ≤ n ∧ head post ≠ Some 0x2D%Z.
Proof.
  induction s as [|x s IH]; [left; apply no_dash_run_nil|].
  destruct IH as [IH|(pre & n & post & -> & Hpre & Hlast & Hn & Hpost)].
  - destruct (decide (x = 0x2D%Z ∧ head s = Some 0x2D%Z)) as [[-> Hs]|Hx].
    + right. destruct s as [|d s]; simplify_eq/=.
      apply no_dash_run_cons in IH as [Hd _].
      exists [], 2, s. split; [done|]. split; [apply no_dash_run_nil|].
      split; [done|]. split; [lia|]. intros Hh. by apply Hd.
    + left. apply no_dash_run_cons. by split.
  - right. destruct pre as [|y pre].
    + destruct (decide (x = 0x2D%Z)) as [->|Hx].
      * exists [], (S n), post. split; [done|].
        split; [apply no_dash_run_nil|]. split; [done|]. split; [lia|done].
      * exists [x], n, post. split; [done|]. split.
        { apply no_dash_run_cons. split; [by intros [? _]|].
          apply no_dash_run_nil. }
        split; [simpl; congruence|done].
    + destruct (decide (x = 0x2D%Z ∧ y = 0x2D%Z)) as [[-> ->]|Hxy].
      * apply no_dash_run_cons in Hpre as [Hy Hpre].
        destruct pre as [|z pre]; [done|].
        exists [], 2, (z :: pre ++ replicate n 0x2D%Z ++ post).
        split; [done|]. split; [apply no_dash_run_nil|]. split; [done|].
        split; [lia|]. simpl. intros [= ->]. by apply Hy.
      * exists (x :: y :: pre), n, post. split; [done|]. split.
        { apply no_dash_run_cons. split; [|done].
          intros [-> [= ->]]. by apply Hxy. }
        split; [by rewrite last_cons_cons|done].
Qed.

Lemma removes_dash_runs_unique f g :
  removes_dash_runs f → removes_dash_runs g → ∀ s, f s = g s.
Proof.
  intros [Hf1 Hf2] [Hg1 Hg2] s. induction s as [s IH] using length_ind.
  destruct (dash_run_split s)
    as [Hs|(pre & n & post & -> & Hpre & Hlast & Hn & Hpost)].
  - by rewrite Hf2, Hg2.
  - rewrite Hf1, Hg1 by done. f_equal. apply IH.
    rewrite !length_app, length_replicate. lia.
Qed.

(** ** Punctuation *)

Lemma re_class_delete cls s : re_sub (re_class cls) [] s = delete_chars cls s.
Proof.
  induction s as [|c s IH]; [done|]. rewrite re_sub_cons.
  unfold re_class at 1, delete_chars. rewrite filter_cons.
  destruct (decide (c ∈ cls)).
  - rewrite decide_False by auto. done.
  - rewrite decide_True by done. by rewrite IH.
Qed.

Lemma split_head sep s : split sep s !! 0 = Some (before_sep sep s).
Proof.
  induction s as [|c s IH]; [done|]. simpl.
  destruct (decide (c = sep)); [done|].
  destruct (split sep s) as [|w ws]; [done|]. by simplify_eq/=.
Qed.

Lemma default_pattern : PUNCTUATION_PATTERNS !! u "default" = Some ascii_class.
Proof. by vm_compute. Qed.

Lemma lookup_profile key :
  default ascii_class (PUNCTUATION_PATTERNS !! key) = profile key.
Proof.
  unfold PUNCTUATION_PATTERNS, profile.
  rewrite !lookup_insert, lookup_empty.
  destruct (decide (u "default" = key)) as [<-|H0]; [by vm_compute|].
  destruct (decide (u "zh" = key)) as [<-|H1]; [by vm_compute|].
  destruct (decide (u "ja" = key)) as [<-|H2]; [by vm_compute|].
  destruct (decide (u "ko" = key)) as [<-|H3]; [by vm_compute|].
  by rewrite !decide_False by done.
Qed.

Lemma lookup_pattern_None key :
  PUNCTUATION_PATTERNS !! key = None → profile key = ascii_class.
Proof. intros H. by rewrite <-lookup_profile, H. Qed.

Lemma profile_values key :
  ∃ k, PUNCTUATION_PATTERNS !! k = Some (profile key).
Proof.
  unfold profile. repeat case_decide.
  - exists (u "zh"). by vm_compute.
  - exists (u "ja"). by vm_compute.
  - exists (u "ko"). by vm_compute.
  - exists (u "default"). by vm_compute.
Qed.

Section punctuation.
Context {U : UnicodeDB}.

(** [remove_punctuation] never raises on a language tag. *)
Lemma remove_punctuation_eq text lang :
  remove_punctuation text (VStr lang)
  = Ok (delete_chars (profile (str_lower (before_sep 0x5F lang))) text).
Proof.
  unfold remove_punctuation, getindex, getitem.
  rewrite split_head, default_pattern. simpl.
  by rewrite lookup_profile, re_class_delete.
Qed.

End punctuation.

Lemma ascii_punct_in_class c : is_ascii_punct c = true → c ∈ ascii_class.
Proof.
  intros Hc.
  assert (Forall (λ c, is_ascii_punct c = true → c ∈ ascii_class)
                 (seqZ 0 128)) as HF.
  { apply (bool_decide_unpack _). by vm_compute. }
  rewrite Forall_forall in HF. apply HF; [|done].
  apply elem_of_seqZ. unfold is_ascii_punct in Hc. lia.
Qed.

Lemma ascii_punct_in_pattern key cls c :
  PUNCTUATION_PATTERNS !! key = Some cls →
  is_ascii_punct c = true → c ∈ cls.
Proof.
  unfold PUNCTUATION_PATTERNS. rewrite !lookup_insert, lookup_empty.
  intros Hk Hc%ascii_punct_in_class.
  repeat case_decide; simplify_eq; try done;
    apply elem_of_app; by left.
Qed.

(** C1 (amended): remove_punctuation resolves the punctuation profile from
    the text of the language tag before the first '_' (a '-' is not a
    separator), lower-cased, looked up among the keys zh, ja and ko with the
    default profile otherwise, and deletes the characters of that profile;
    the tag zh_CN resolves to the zh profile, the tag zh-CN to the default
    one. *)
Theorem C1_profile_resolution {U : UnicodeDB} :
  (∀ text lang,
     remove_punctuation text (VStr lang)
     = Ok (delete_chars (profile (str_lower (before_sep 0x5F lang))) text))
  ∧ (lower_on_ascii U →
     ∀ text,
       remove_punctuation text (VStr (u "zh_CN"))
       = Ok (delete_chars zh_class text)
       ∧ remove_punctuation text (VStr (u "zh-CN"))
         = Ok (delete_chars ascii_class text)).
Proof.
  split; [apply remove_punctuation_eq|].
  intros HU text. rewrite !remove_punctuation_eq.
  replace (before_sep 0x5F (u "zh_CN")) with (u "zh") by (by vm_compute).
  replace (before_sep 0x5F (u "zh-CN")) with (u "zh-CN") by (by vm_compute).
  rewrite !HU by (by vm_compute). split; do 2 f_equal; by vm_compute.
Qed.

Lemma C1_profile_resolution_witness :
  lower_on_ascii ascii_db
  ∧ remove_punctuation (U:=ascii_db) (u "你好，世界!") (VStr (u "zh_CN"))
    = Ok (u "你好世界").
Proof.
  assert (lower_on_ascii ascii_db) as HU by (by intros s _).
  split; [exact HU|].
  destruct (C1_profile_resolution (U:=ascii_db)) as [_ H].
  destruct (H HU (u "你好，世界!")) as [-> _]. by vm_compute.
Defined.

(** C1, as stated, fails: with '-' taken as a separator the tag zh-CN
    would resolve to the zh profile, which deletes the ideographic full
    stop; the code keeps it. *)
Lemma C1_counterexample :
  remove_punctuation (U:=ascii_db) (u "。") (VStr (u "zh-CN"))
  ≠ Ok (delete_chars
          (profile (str_lower (UnicodeDB:=ascii_db)
                      (before_hyphen_or_underscore (u "zh-CN"))))
          (u "。"))
  ∧ str_lower (UnicodeDB:=ascii_db) (before_hyphen_or_underscore (u "zh-CN"))
    = u "zh"
  ∧ delete_chars (profile (u "zh")) (u "。") = []
  ∧ remove_punctuation (U:=ascii_db) (u "。") (VStr (u "zh-CN"))
    = Ok (u "。").
Proof. split; [|by vm_compute]. vm_compute. discriminate. Qed.

(** C8: for every language tag whose resolved key is not in the table,
    remove_punctuation raises nothing and deletes the characters of the
    default profile; remove_punctuation("a,b!", "xx") is "ab". *)
Theorem C8_default_fallback {U : UnicodeDB} :
  PUNCTUATION_PATTERNS !! u "default" = Some ascii_class
  ∧ (∀ text lang,
       PUNCTUATION_PATTERNS !! str_lower (before_sep 0x5F lang) = None →
       remove_punctuation text (VStr lang)
       = Ok (delete_chars ascii_class text))
  ∧ (lower_on_ascii U →
       remove_punctuation (u "a,b!") (VStr (u "xx")) = Ok (u "ab")).
Proof.
  split; [apply default_pattern|]. split.
  - intros text lang Hk. rewrite remove_punctuation_eq.
    by rewrite (lookup_pattern_None _ Hk).
  - intros HU. rewrite remove_punctuation_eq.
    replace (before_sep 0x5F (u "xx")) with (u "xx") by (by vm_compute).
    rewrite HU by (by vm_compute). by vm_compute.
Qed.

Lemma C8_default_fallback_witness :
  PUNCTUATION_PATTERNS
    !! str_lower (UnicodeDB:=ascii_db) (before_sep 0x5F (u "xx")) = None
  ∧ lower_on_ascii ascii_db
  ∧ remove_punctuation (U:=ascii_db) (u "a,b!") (VStr (u "xx")) = Ok (u "ab").
Proof.
  assert (lower_on_ascii ascii_db) as HU by (by intros s _).
  split; [by vm_compute|]. split; [exact HU|].
  destruct (C8_default_fallback (U:=ascii_db)) as (_ & Hnone & Hxx).
  rewrite (Hnone (u "a,b!") (u "xx")); by vm_compute.
Defined.

(** C9: every profile of the table (default, zh, ja, ko) contains every
    ASCII punctuation character, so that remove_punctuation deletes each
    of them whatever the language tag. *)
Theorem C9_ascii_punctuation {U : UnicodeDB} :
  (∀ key, is_Some (PUNCTUATION_PATTERNS !! key)
          ↔ key ∈ [u "default"; u "zh"; u "ja"; u "ko"])
  ∧ (∀ key cls c,
       PUNCTUATION_PATTERNS !! key = Some cls →
       is_ascii_punct c = true → c ∈ cls)
  ∧ (∀ text lang c,
       is_ascii_punct c = true →
       ∃ r, remove_punctuation text (VStr lang) = Ok r ∧ c ∉ r).
Proof.
  split; [|split].
  - intros key. unfold PUNCTUATION_PATTERNS.
    rewrite !lookup_insert, lookup_empty, !elem_of_cons, elem_of_nil.
    repeat case_decide; split; intros Hx; eauto 6;
      try by destruct Hx as [? [=]].
    destruct Hx as [?|[?|[?|[?|[]]]]]; congruence.
  - apply ascii_punct_in_pattern.
  - intros text lang c Hc. rewrite remove_punctuation_eq.
    eexists; split; [done|]. unfold delete_chars.
    intros [Hn _]%list_elem_of_filter. apply Hn.
    destruct (profile_values (str_lower (before_sep 0x5F lang))) as [k Hk].
    by eapply ascii_punct_in_pattern.
Qed.

Lemma C9_ascii_punctuation_witness :
  PUNCTUATION_PATTERNS !! u "ja" = Some ja_class
  ∧ is_ascii_punct 0x2C = true
  ∧ (0x2C%Z ∈ ja_class).
Proof.
  split; [by vm_compute|]. split; [done|].
  destruct (C9_ascii_punctuation (U:=ascii_db)) as (_ & H & _).
  apply (H (u "ja") ja_class 0x2C%Z); by vm_compute.
Defined.

(** ** The whitespace normalizer *)

Lemma concat_words s :
  concat (words s) = filter (λ c, is_space c = false) s.
Proof.
  induction s as [|c s IH]; [done|]. rewrite filter_cons.
  destruct (is_space c) eqn:Hc.
  - rewrite decide_False by done. by rewrite words_space.
  - rewrite decide_True by done. rewrite <-IH. destruct s as [|d s].
    { by rewrite words_nonspace_nil. }
    destruct (is_space d) eqn:Hd.
    + rewrite words_nonspace_space by done. by rewrite words_space.
    + destruct (words_nonspace_nonspace c d s Hc Hd) as (w & ws & -> & ->).
      done.
Qed.

(** C7: remove_extra_whitespace turns every maximal run of whitespace
    into one ASCII space and trims both ends, that is, it joins the words
    of the text (its maximal runs of non-whitespace characters) by single
    spaces; and it is idempotent. *)
Theorem C7_whitespace_normalizer (s : str) :
  remove_extra_whitespace s = join_words (words s)
  ∧ Forall is_word (words s)
  ∧ concat (words s) = filter (λ c, is_space c = false) s
  ∧ remove_extra_whitespace (remove_extra_whitespace s)
    = remove_extra_whitespace s.
Proof.
  split; [apply remove_extra_whitespace_words|].
  split; [apply words_are_words|].
  split; [apply concat_words|].
  apply remove_extra_whitespace_idem.
Qed.

(** ** The annotation stripper *)

Lemma clean_vaani_transcript_str s :
  clean_vaani_transcript (VStr s)
  = remove_extra_whitespace
      (dashes (re_sub (re_negclass 0x3C 0x3E) []
                 (re_sub (re_negclass 0x7B 0x7D) [] s))).
Proof. by destruct s. Qed.

Lemma clean_vaani_transcript_other v :
  is_str v = false → clean_vaani_transcript v = [].
Proof.
  intros Hv. unfold clean_vaani_transcript. rewrite Hv.
  by rewrite orb_true_r.
Qed.

(** C5: clean_vaani_transcript returns the empty string for an input that
    is empty or not text, and otherwise applies in this order: removal of
    each substring from a '{' to the next '}', removal of each substring
    from a '<' to the next '>', deletion of every run of two or more '-',
    whitespace normalization; the annotated sample transcript is cleaned
    as documented.  Each pass is stated by the equations that determine
    it ([removes_to_next_unique], [removes_dash_runs_unique]). *)
Theorem C5_clean_vaani_transcript :
  let braces := re_sub (re_negclass 0x7B 0x7D) [] in
  let angles := re_sub (re_negclass 0x3C 0x3E) [] in
  let dash_runs := re_sub re_dashes [] in
  removes_to_next 0x7B 0x7D braces
  ∧ removes_to_next 0x3C 0x3E angles
  ∧ removes_dash_runs dash_runs
  ∧ (∀ v, clean_vaani_transcript v =
          match v with
          | VStr s => remove_extra_whitespace (dash_runs (angles (braces s)))
          | _ => []
          end)
  ∧ clean_vaani_transcript (VStr []) = []
  ∧ clean_vaani_transcript (VStr (u "एक वॉचमन {watchman} असा"))
    = u "एक वॉचमन असा".
Proof.
  intros braces angles dash_runs.
  split; [apply negclass_removes_to_next|].
  split; [apply negclass_removes_to_next|].
  split; [apply dashes_removes_dash_runs|].
  split; [|split; by vm_compute].
  intros [|b|n|b|s];
    [done|by destruct b|by apply clean_vaani_transcript_other..|].
  apply clean_vaani_transcript_str.
Qed.

Lemma C5_clean_vaani_transcript_witness :
  (0x7B%Z ∉ u "एक ")
  ∧ (0x7D%Z ∉ u "watchman")
  ∧ re_sub (re_negclass 0x7B 0x7D) [] (u "एक {watchman} असा")
    = u "एक " ++ re_sub (re_negclass 0x7B 0x7D) [] (u " असा").
Proof.
  assert (0x7B%Z ∉ u "एक ") as H1.
  { apply (bool_decide_unpack _). by vm_compute. }
  assert (0x7D%Z ∉ u "watchman") as H2.
  { apply (bool_decide_unpack _). by vm_compute. }
  split; [exact H1|]. split; [exact H2|].
  destruct C5_clean_vaani_transcript as ([H _] & _).
  exact (H (u "एक ") (u "watchman") (u " असा") H1 H2).
Defined.

(** ** Bracketed content *)

(** What the code of remove_brackets_content does: four passes in the
    order square, angle, curly, round; each pass removes, from left to
    right, an opening bracket with everything up to the nearest closing
    bracket of its kind when no line feed lies between them, so that
    "a [b] c [d] e" becomes "a  c  e"; an opener separated from its
    nearest closer by a line feed is left in the text.  The equations
    determine each pass ([removes_to_next_on_line_unique]). *)
Lemma remove_brackets_content_passes :
  let square := re_sub (re_lazydot 0x5B 0x5D) [] in
  let angle := re_sub (re_lazydot 0x3C 0x3E) [] in
  let curly := re_sub (re_lazydot 0x7B 0x7D) [] in
  let round := re_sub (re_lazydot 0x28 0x29) [] in
  removes_to_next_on_line 0x5B 0x5D square
  ∧ removes_to_next_on_line 0x3C 0x3E angle
  ∧ removes_to_next_on_line 0x7B 0x7D curly
  ∧ removes_to_next_on_line 0x28 0x29 round
  ∧ (∀ s, remove_brackets_content s = round (curly (angle (square s))))
  ∧ remove_brackets_content (u "a [b] c [d] e") = u "a  c  e".
Proof.
  intros square angle curly round.
  repeat (split; [by apply lazydot_removes_to_next_on_line|]).
  split; [done|by vm_compute].
Qed.

Lemma remove_brackets_content_passes_witness :
  (0x5B%Z ∉ u "a ")
  ∧ (0x5D%Z ∉ u "b")
  ∧ (0x0A%Z ∉ u "b")
  ∧ re_sub (re_lazydot 0x5B 0x5D) [] (u "a [b] c [d] e")
    = u "a " ++ re_sub (re_lazydot 0x5B 0x5D) [] (u " c [d] e").
Proof.
  assert (0x5B%Z ∉ u "a ") as H1.
  { apply (bool_decide_unpack _). by vm_compute. }
  assert (0x5D%Z ∉ u "b") as H2.
  { apply (bool_decide_unpack _). by vm_compute. }
  assert (0x0A%Z ∉ u "b") as H3.
  { apply (bool_decide_unpack _). by vm_compute. }
  split; [exact H1|]. split; [exact H2|]. split; [exact H3|].
  destruct remove_brackets_content_passes as ([H _] & _).
  exact (H (u "a ") (u "b") (u " c [d] e") H1 H2 H3).
Defined.

(** C6 (the code falls short of it): bracket-enclosed text that holds a
    line feed is not removed, against the claim and against the
    documentation of remove_brackets_content, which returns the text
    "without bracketed content": the patterns use a dot, which does not
    match a line feed.  The sibling clean_vaani_transcript, whose
    patterns use negated classes, removes such content. *)
Theorem C6_line_feed_bug :
  remove_brackets_content (u "[a" ++ [0x0A%Z] ++ u "b]")
  = u "[a" ++ [0x0A%Z] ++ u "b]"
  ∧ remove_brackets_content (u "x (a" ++ [0x0A%Z] ++ u "b) y")
    = u "x (a" ++ [0x0A%Z] ++ u "b) y"
  ∧ ¬ removes_to_next 0x5B 0x5D (re_sub (re_lazydot 0x5B 0x5D) [])
  ∧ clean_vaani_transcript (VStr (u "{a" ++ [0x0A%Z] ++ u "b}")) = []
  ∧ removes_to_next 0x7B 0x7D (re_sub (re_negclass 0x7B 0x7D) []).
Proof.
  split; [by vm_compute|]. split; [by vm_compute|]. split.
  - intros [H _].
    specialize (H [] (u "a" ++ [0x0A%Z] ++ u "b") []).
    assert (0x5B%Z ∉ @nil Z) as H1 by apply not_elem_of_nil.
    assert (0x5D%Z ∉ u "a" ++ [0x0A%Z] ++ u "b") as H2.
    { apply (bool_decide_unpack _). by vm_compute. }
    specialize (H H1 H2). vm_compute in H. discriminate.
  - split; [by vm_compute|apply negclass_removes_to_next].
Qed.

(** ** Idempotence of the annotation stripper *)

Lemma strip_sublist s : strip s `sublist_of` s.
Proof.
  unfold strip. trans (lstrip s).
  - destruct (rstrip_prefix (lstrip s)) as [k Hk]. rewrite Hk at 2.
    by apply sublist_inserts_r.
  - destruct (lstrip_suffix s) as [k Hk]. rewrite Hk at 2.
    by apply sublist_inserts_l.
Qed.

Lemma collapse_no_pair o c s :
  is_space o = false → is_space c = false →
  no_pair o c s → no_pair o c (collapse s).
Proof.
  intros Ho Hc. induction s as [s IH] using length_ind.
  destruct s as [|x s]; [done|].
  intros [H1 H2]%no_pair_cons. destruct (is_space x) eqn:Hx.
  - rewrite collapse_space by done. apply no_pair_cons. split.
    + intros <-. done.
    + apply IH; [simpl; pose proof (lstrip_length s); lia|].
      eapply no_pair_sublist; [|done].
      destruct (lstrip_suffix s) as [k Hk]. rewrite Hk at 2.
      by apply sublist_inserts_l.
  - rewrite collapse_nonspace by done. apply no_pair_cons. split.
    + intros Hxo [->|Hin]%collapse_elem; [done|]. by apply H1.
    + apply IH; [simpl; lia|done].
Qed.

Lemma remove_extra_whitespace_no_pair o c s :
  is_space o = false → is_space c = false →
  no_pair o c s → no_pair o c (remove_extra_whitespace s).
Proof.
  intros Ho Hc Hs. unfold remove_extra_whitespace.
  eapply no_pair_sublist; [apply strip_sublist|].
  by apply collapse_no_pair.
Qed.

Lemma remove_extra_whitespace_no_dash_run s :
  no_dash_run s → no_dash_run (remove_extra_whitespace s).
Proof.
  intros Hs. unfold remove_extra_whitespace.
  by apply strip_no_dash_run, collapse_no_dash_run.
Qed.

(** C10: clean_vaani_transcript is idempotent; its output holds no
    complete '{' ... '}' pair, no complete '<' ... '>' pair and no run of
    two or more '-', and is whitespace-normalized. *)
Theorem C10_clean_vaani_idempotent (v : value) :
  let r := clean_vaani_transcript v in
  clean_vaani_transcript (VStr r) = r
  ∧ no_pair 0x7B 0x7D r
  ∧ no_pair 0x3C 0x3E r
  ∧ no_dash_run r
  ∧ remove_extra_whitespace r = r.
Proof.
  intros r.
  assert (no_pair 0x7B 0x7D r ∧ no_pair 0x3C 0x3E r ∧ no_dash_run r
          ∧ remove_extra_whitespace r = r) as (Hb & Ha & Hd & Hw).
  { subst r. destruct (is_str v) eqn:Hv.
    - destruct v as [| | | |s]; try done.
      rewrite clean_vaani_transcript_str.
      split; [|split; [|split]].
      + apply remove_extra_whitespace_no_pair; [done..|].
        eapply no_pair_sublist; [apply re_sub_sublist|].
        eapply no_pair_sublist; [apply re_sub_sublist|].
        apply negclass_no_pair.
      + apply remove_extra_whitespace_no_pair; [done..|].
        eapply no_pair_sublist; [apply re_sub_sublist|].
        apply negclass_no_pair.
      + apply remove_extra_whitespace_no_dash_run, dashes_no_dash_run.
      + apply remove_extra_whitespace_idem.
    - rewrite clean_vaani_transcript_other by done.
      split; [apply no_pair_nil|]. split; [apply no_pair_nil|].
      split; [apply no_dash_run_nil|done]. }
  split; [|done].
  rewrite clean_vaani_transcript_str.
  rewrite (negclass_id 0x7B 0x7D r Hb), (negclass_id 0x3C 0x3E r Ha).
  by rewrite dashes_id.
Qed.

(** ** The digit-only filter *)

Lemma forallb_Forall {A} (f : A → bool) l :
  forallb f l = true ↔ Forall (λ x, f x = true) l.
Proof.
  induction l as [|x l IH]; simpl; [by split; [constructor|]|].
  rewrite andb_true_iff, Forall_cons, IH. done.
Qed.

Lemma remove_digit_only_words_false s :
  remove_digit_only_words s = false ↔
    filter (λ c, c ≠ 0x20%Z) s ≠ []
    ∧ Forall (λ c, is_digit c = true) (filter (λ c, c ≠ 0x20%Z) s).
Proof.
  unfold remove_digit_only_words, replace_char_empty, isdigit.
  destruct (filter (λ c, c ≠ 0x20%Z) s) as [|x t] eqn:Ht.
  { simpl. split; [done|]. by intros [? _]. }
  change (nonempty (x :: t)) with true. rewrite !andb_true_l.
  rewrite <-forallb_Forall.
  destruct (forallb is_digit (x :: t)); split; try done. by intros [_ ?].
Qed.

(** C2 (amended): remove_digit_only_words strips the space characters and
    asks for the drop exactly when what is left is non-empty and consists
    of digits in the sense of str.isdigit, that is, of characters whose
    Numeric_Type is Decimal or Digit (the decimal digits of any script,
    and also digits such as the superscript two); every other text, the
    empty one included, is kept.  "123" and "12 3" are dropped, "12a" and
    the empty string are kept. *)
Theorem C2_digit_only_filter :
  (∀ s, remove_digit_only_words s = false ↔
          filter (λ c, c ≠ 0x20%Z) s ≠ []
          ∧ Forall (λ c, is_decimal c = true
                         ∨ in_ranges other_digit_ranges c = true)
                   (filter (λ c, c ≠ 0x20%Z) s))
  ∧ remove_digit_only_words (u "123") = false
  ∧ remove_digit_only_words (u "12 3") = false
  ∧ remove_digit_only_words (u "12a") = true
  ∧ remove_digit_only_words [] = true.
Proof.
  split; [|by vm_compute]. intros s.
  rewrite remove_digit_only_words_false.
  assert (∀ c, is_digit c = true ↔
               is_decimal c = true ∨ in_ranges other_digit_ranges c = true)
    as Hd.
  { intros c. unfold is_digit. apply orb_true_iff. }
  split; intros [? Hf]; (split; [done|]);
    eapply Forall_impl; [exact Hf| |exact Hf|]; intros c; apply Hd.
Qed.

Lemma C2_digit_only_filter_witness :
  filter (λ c, c ≠ 0x20%Z) (u "12 3") ≠ []
  ∧ Forall (λ c, is_decimal c = true ∨ in_ranges other_digit_ranges c = true)
           (filter (λ c, c ≠ 0x20%Z) (u "12 3"))
  ∧ remove_digit_only_words (u "12 3") = false.
Proof.
  assert (filter (λ c, c ≠ 0x20%Z) (u "12 3") ≠ []) as H1 by (by vm_compute).
  assert (Forall (λ c, is_decimal c = true
                       ∨ in_ranges other_digit_ranges c = true)
                 (filter (λ c, c ≠ 0x20%Z) (u "12 3"))) as H2.
  { change (filter (λ c, c ≠ 0x20%Z) (u "12 3")) with [0x31; 0x32; 0x33]%Z.
    repeat constructor; left; by vm_compute. }
  split; [exact H1|]. split; [exact H2|].
  destruct C2_digit_only_filter as [H _].
  exact (proj2 (H (u "12 3")) (conj H1 H2)).
Defined.

(** C2, as stated, fails: the superscript two is a digit for str.isdigit
    but not a decimal digit character, and the text is dropped. *)
Lemma C2_counterexample :
  is_decimal 0xB2 = false
  ∧ ¬ (remove_digit_only_words (u "²") = false ↔
         filter (λ c, c ≠ 0x20%Z) (u "²") ≠ []
         ∧ Forall (λ c, is_decimal c = true)
                  (filter (λ c, c ≠ 0x20%Z) (u "²"))).
Proof.
  split; [by vm_compute|]. intros [H _].
  assert (remove_digit_only_words (u "²") = false) as Hr by (by vm_compute).
  destruct (H Hr) as [_ Hf].
  change (filter (λ c, c ≠ 0x20%Z) (u "²")) with [0xB2%Z] in Hf.
  inversion_clear Hf as [|?? Hd _]. by vm_compute in Hd.
Qed.

(** ** The generic pipeline *)

Section pipeline.
Context {U : UnicodeDB}.

Lemma text_normalize_not_text v lang cfg :
  v = VStr [] ∨ is_str v = false → text_normalize v lang cfg = Ok None.
Proof.
  unfold text_normalize. intros [->|Hv]; [done|].
  by rewrite Hv, orb_true_r.
Qed.

(** On a language tag the pipeline raises nothing, and what it returns is
    neither empty nor all whitespace. *)
Lemma text_normalize_result v lang cfg :
  ∃ r, text_normalize v (VStr lang) cfg = Ok r
       ∧ ∀ s, r = Some s → s ≠ [] ∧ ¬ Forall (λ c, is_space c = true) s.
Proof.
  destruct (is_str v) eqn:Hv.
  2:{ rewrite text_normalize_not_text by auto. by eexists. }
  destruct v as [| | | |s]; try done. destruct s as [|x s].
  { rewrite text_normalize_not_text by auto. by eexists. }
  unfold text_normalize. cbn [truthy nonempty is_str negb orb].
  rewrite remove_punctuation_eq. cbn [mbind result_bind].
  match goal with
  | |- context [remove_extra_whitespace ?t] =>
      generalize (remove_extra_whitespace t)
  end.
  intros t. destruct (remove_numbers cfg && negb (remove_digit_only_words t)).
  { by eexists. }
  destruct (negb (nonempty t) || isspace t) eqn:Ht.
  { by eexists. }
  eexists. split; [done|]. intros ? [= <-].
  apply orb_false_iff in Ht as [Hne Hsp]. apply negb_false_iff in Hne.
  unfold isspace in Hsp. rewrite Hne in Hsp. simpl in Hsp.
  split; [by destruct t|].
  intros HF%forallb_Forall. congruence.
Qed.

End pipeline.

(** C4: for every language tag and configuration, text_normalize gives the
    drop signal for the empty string and for an input that is not text; it
    raises nothing; and a string it returns is neither empty nor made of
    whitespace only. *)
Theorem C4_text_normalize_drop {U : UnicodeDB} (lang : str) (cfg : config) :
  (∀ v, v = VStr [] ∨ is_str v = false →
        text_normalize v (VStr lang) cfg = Ok None)
  ∧ (∀ v, ∃ r, text_normalize v (VStr lang) cfg = Ok r)
  ∧ (∀ v s, text_normalize v (VStr lang) cfg = Ok (Some s) →
            s ≠ [] ∧ ¬ Forall (λ c, is_space c = true) s).
Proof.
  split; [intros v; apply text_normalize_not_text|]. split.
  - intros v. destruct (text_normalize_result v lang cfg) as (r & Hr & _).
    by exists r.
  - intros v s Hs.
    destruct (text_normalize_result v lang cfg) as (r & Hr & H).
    apply H. congruence.
Qed.

Lemma C4_text_normalize_drop_witness :
  text_normalize (U:=ascii_db) (VStr (u "Hello, WORLD!  123"))
    (VStr (u "en")) default_config = Ok (Some (u "hello world 123"))
  ∧ text_normalize (U:=ascii_db) VNone (VStr (u "en")) default_config
    = Ok None
  ∧ u "hello world 123" ≠ []
  ∧ ¬ Forall (λ c, is_space c = true) (u "hello world 123").
Proof.
  assert (text_normalize (U:=ascii_db) (VStr (u "Hello, WORLD!  123"))
            (VStr (u "en")) default_config = Ok (Some (u "hello world 123")))
    as H by (by vm_compute).
  destruct (C4_text_normalize_drop (U:=ascii_db) (u "en") default_config)
    as (H1 & _ & H3).
  split; [exact H|]. split; [exact (H1 VNone (or_intror eq_refl))|].
  exact (H3 _ _ H).
Defined.

(** ** The batch adapters *)

Lemma mapM_result_ok {A B} (f : A → result B) (g : A → B) l :
  Forall (λ x, f x = Ok (g x)) l → mapM f l = Ok (g <$> l).
Proof.
  induction 1 as [|x l Hx Hl IH]; [done|].
  cbn [mapM]. rewrite Hx. cbn [mbind result_bind]. rewrite IH. done.
Qed.

Lemma or_empty_default r : or_empty r = default [] r.
Proof. destruct r as [[|??]|]; done. Qed.

(** ** The documented examples *)

Example clean_vaani_transcript_doc_1 :
  clean_vaani_transcript
    (VStr (u "एक वॉचमन {watchman} असा तचा साइडीन {side} एक"))
  = u "एक वॉचमन असा तचा साइडीन एक".
Proof. by vm_compute. Qed.

Example clean_vaani_transcript_doc_2 :
  clean_vaani_transcript
    (VStr (u "दोन बुरगे असा एक बुर्ग्यान <pause> ब्लू कलरचो शर्ट {blue color shirt} घा --</pause>"))
  = u "दोन बुरगे असा एक बुर्ग्यान ब्लू कलरचो शर्ट घा".
Proof. by vm_compute. Qed.

Example clean_vaani_transcript_dashes :
  clean_vaani_transcript (VStr (u "text -- more")) = u "text more".
Proof. by vm_compute. Qed.

Example text_normalize_end_to_end :
  text_normalize (U:=ascii_db) (VStr (u "Hello, WORLD!  123")) (VStr (u "en"))
    default_config
  = Ok (Some (u "hello world 123")).
Proof. by vm_compute. Qed.

(** Why the batch invariant asks for a language column of the same length
    that holds language tags: [zip] stops at the shorter column, and a
    language that is not a string has no [split]. *)
Example batch_normalize_text_short_languages :
  batch_normalize_text (U:=ascii_db)
    (<[u "text" := [VStr (u "Hi!"); VStr (u "Yo")]]>
       (<[u "language" := [VStr (u "en")]]> ∅))
    (u "text") (u "language") default_config
  = Ok (<[u "text" := [VStr (u "hi")]]>
          (<[u "language" := [VStr (u "en")]]> ∅)).
Proof. by vm_compute. Qed.

Example batch_normalize_text_language_none :
  batch_normalize_text (U:=ascii_db)
    (<[u "text" := [VStr (u "Hi!")]]> (<[u "language" := [VNone]]> ∅))
    (u "text") (u "language") default_config
  = Raise AttributeError.
Proof. by vm_compute. Qed.

Example batch_normalize_text_no_text_column :
  batch_normalize_text (U:=ascii_db) ∅ (u "text") (u "language")
    default_config
  = Raise (KeyError (u "text")).
Proof. by vm_compute. Qed.

(** * Further properties of the two pipelines *)

(** ** The shape of whitespace-normalized text *)

Lemma rstrip_starts s : starts_nonspace s → starts_nonspace (rstrip s).
Proof.
  destruct s as [|c s]; [done|]. intros Hc.
  change (is_space c = false) in Hc. by rewrite rstrip_nonspace.
Qed.

Lemma rstrip_last s c : last (rstrip s) = Some c → is_space c = false.
Proof.
  induction s as [|x s IH]; [done|]. simpl.
  destruct (rstrip s) as [|y r] eqn:Hr.
  - destruct (is_space x) eqn:Hx; [done|]. by intros [= <-].
  - rewrite last_cons_cons. apply IH.
Qed.

Lemma remove_extra_whitespace_starts s :
  starts_nonspace (remove_extra_whitespace s).
Proof.
  unfold remove_extra_whitespace, strip. rewrite lstrip_collapse.
  apply rstrip_starts, collapse_starts, lstrip_starts.
Qed.

Lemma collapse_space_elem s c :
  c ∈ collapse s → is_space c = true → c = 0x20%Z.
Proof.
  induction s as [s IH] using length_ind. destruct s as [|x s].
  { by intros ?%elem_of_nil. }
  destruct (is_space x) eqn:Hx.
  - rewrite collapse_space by done. intros [->|Hc]%elem_of_cons; [done|].
    apply (IH (lstrip s)); [|done]. simpl. pose proof (lstrip_length s). lia.
  - rewrite collapse_nonspace by done.
    intros [->|Hc]%elem_of_cons; [congruence|].
    apply (IH s); [simpl; lia|done].
Qed.

Lemma no_double_space_nil : no_double_space [].
Proof. intros [|??] ????; done. Qed.

Lemma no_double_space_word w t :
  Forall (λ c, is_space c = false) w → starts_nonspace t →
  no_double_space t → no_double_space (w ++ 0x20%Z :: t).
Proof.
  intros Hw Ht Hnd. induction Hw as [|x w Hx Hw IH].
  - intros [|y pre] c d post; simpl; intros [= ??] Hc; subst.
    + exact Ht.
    + by apply (Hnd pre c d post).
  - intros [|y pre] c d post; simpl; intros [= ? Heq] Hc; subst.
    + congruence.
    + by apply (IH pre c d post).
Qed.

Lemma no_double_space_is_word w : is_word w → no_double_space w.
Proof.
  intros [_ Hw] pre c d post -> Hc. rewrite Forall_forall in Hw.
  rewrite Hw in Hc; [done|]. apply elem_of_app. right. by left.
Qed.

Lemma join_words_starts ws :
  Forall is_word ws → starts_nonspace (join_words ws).
Proof.
  destruct 1 as [|w ws [Hne Hw] Hws]; [done|].
  destruct w as [|c w]; [done|]. apply Forall_cons in Hw as [Hc _].
  by destruct ws.
Qed.

Lemma join_words_no_double_space ws :
  Forall is_word ws → no_double_space (join_words ws).
Proof.
  induction 1 as [|w ws Hw Hws IH]; [apply no_double_space_nil|].
  destruct ws as [|w' ws]; [by apply no_double_space_is_word|].
  rewrite join_words_cons2. apply no_double_space_word; [by destruct Hw| |done].
  by apply join_words_starts.
Qed.

Lemma filter_nonspace_word w :
  Forall (λ c, is_space c = false) w →
  filter (λ c, is_space c = false) w = w.
Proof.
  induction 1 as [|x w Hx Hw IH]; [done|].
  by rewrite filter_cons, decide_True, IH.
Qed.

Lemma filter_nonspace_join_words ws :
  Forall is_word ws →
  filter (λ c, is_space c = false) (join_words ws) = concat ws.
Proof.
  induction 1 as [|w ws [_ Hw] Hws IH]; [done|].
  destruct ws as [|w' ws].
  { simpl. rewrite app_nil_r. by apply filter_nonspace_word. }
  rewrite join_words_cons2, filter_app, filter_cons, decide_False by done.
  rewrite IH, filter_nonspace_word by done. done.
Qed.

Lemma remove_extra_whitespace_content s :
  filter (λ c, is_space c = false) (remove_extra_whitespace s)
  = filter (λ c, is_space c = false) s.
Proof.
  rewrite remove_extra_whitespace_words, filter_nonspace_join_words.
  - apply concat_words.
  - apply words_are_words.
Qed.

Lemma remove_extra_whitespace_space_elem s c :
  c ∈ remove_extra_whitespace s → is_space c = true → c = 0x20%Z.
Proof.
  intros Hc. apply (collapse_space_elem s).
  eapply elem_of_sublist; [done|apply strip_sublist].
Qed.

Lemma remove_extra_whitespace_not_isspace s :
  isspace (remove_extra_whitespace s) = false.
Proof.
  pose proof (remove_extra_whitespace_starts s) as H.
  destruct (remove_extra_whitespace s) as [|c r]; [done|].
  change (is_space c = false) in H. unfold isspace. simpl. by rewrite H.
Qed.

(** X1: the output of remove_extra_whitespace has no whitespace at either
    end, its only whitespace character is the ASCII space, no two of them
    are adjacent, and its non-whitespace characters are those of the
    input in the same order; so it is never a non-empty all-whitespace
    string and the isspace test that ends text_normalize never decides. *)
Theorem X1_whitespace_shape (s : str) :
  let r := remove_extra_whitespace s in
  starts_nonspace r
  ∧ (∀ c, last r = Some c → is_space c = false)
  ∧ (∀ c, c ∈ r → is_space c = true → c = 0x20%Z)
  ∧ no_double_space r
  ∧ filter (λ c, is_space c = false) r = filter (λ c, is_space c = false) s
  ∧ isspace r = false.
Proof.
  intros r. split; [apply remove_extra_whitespace_starts|].
  split; [intros c; apply rstrip_last|].
  split; [apply remove_extra_whitespace_space_elem|].
  split.
  { subst r. rewrite remove_extra_whitespace_words.
    apply join_words_no_double_space, words_are_words. }
  split; [apply remove_extra_whitespace_content|].
  apply remove_extra_whitespace_not_isspace.
Qed.

Lemma X1_whitespace_shape_witness :
  remove_extra_whitespace (u "  a 	b  ") = u "a b"
  ∧ last (remove_extra_whitespace (u "  a 	b  ")) = Some 0x62%Z
  ∧ is_space 0x62 = false.
Proof.
  assert (last (remove_extra_whitespace (u "  a 	b  ")) = Some 0x62%Z)
    as H by (by vm_compute).
  split; [by vm_compute|]. split; [exact H|].
  destruct (X1_whitespace_shape (u "  a 	b  ")) as (_ & Hl & _).
  exact (Hl _ H).
Defined.

Lemma filter_agree {A} (P Q : A → Prop)
    `{!∀ x, Decision (P x), !∀ x, Decision (Q x)} (l : list A) :
  (∀ x, x ∈ l → P x ↔ Q x) → filter P l = filter Q l.
Proof.
  induction l as [|a l IH]; [done|]. intros Hpq.
  rewrite !filter_cons, IH by (intros x Hx; apply Hpq; by right).
  destruct (decide (P a)) as [HP|HP].
  - rewrite decide_True; [done|]. apply Hpq; [by left|done].
  - rewrite decide_False; [done|]. intros HQ. apply HP, Hpq; [by left|done].
Qed.

(** X2: inside the pipeline the digit-only filter sees whitespace-normalized
    text, so that every kind of whitespace is ignored, not only the space
    character: the normalized text is dropped exactly when the
    non-whitespace characters of the text are digits and there is at
    least one. *)
Theorem X2_digit_filter_after_whitespace (s : str) :
  remove_digit_only_words (remove_extra_whitespace s) = false ↔
    filter (λ c, is_space c = false) s ≠ []
    ∧ Forall (λ c, is_digit c = true) (filter (λ c, is_space c = false) s).
Proof.
  rewrite remove_digit_only_words_false.
  rewrite (filter_agree (λ c, c ≠ 0x20%Z) (λ c, is_space c = false)).
  - by rewrite remove_extra_whitespace_content.
  - intros c Hc. split.
    + intros Hne. destruct (is_space c) eqn:Hsp; [|done].
      destruct Hne. by eapply remove_extra_whitespace_space_elem.
    + by intros Hsp ->.
Qed.

(** ** Punctuation removal *)

Section punctuation_algebra.
Context {U : UnicodeDB}.

(** X3: for a language tag, remove_punctuation only deletes characters
    (its output is a subsequence of the text), works character by
    character (the result for a concatenation is the concatenation of the
    results, so that words around a deleted mark are joined), and a second
    application with the same tag changes nothing. *)
Theorem X3_remove_punctuation_algebra (lang : str) :
  (∀ text, ∃ r,
     remove_punctuation text (VStr lang) = Ok r
     ∧ r `sublist_of` text
     ∧ remove_punctuation r (VStr lang) = Ok r)
  ∧ (∀ a b, ∃ ra rb,
       remove_punctuation a (VStr lang) = Ok ra
       ∧ remove_punctuation b (VStr lang) = Ok rb
       ∧ remove_punctuation (a ++ b) (VStr lang) = Ok (ra ++ rb)).
Proof.
  split.
  - intros text. rewrite remove_punctuation_eq. eexists. split; [done|].
    split; [apply sublist_filter|]. rewrite remove_punctuation_eq.
    f_equal. unfold delete_chars. by apply list_filter_filter_l.
  - intros a b. rewrite !remove_punctuation_eq. eexists _, _.
    split; [done|]. split; [done|]. unfold delete_chars.
    by rewrite filter_app.
Qed.

(** X4: the profile depends on the tag only through the lower-cased text
    before its first underscore: two language tags whose parts before
    the first underscore are ASCII and equal up to the case of the
    letters give the same result, whatever follows the underscore. *)
Theorem X4_tag_case_and_region (text l1 l2 : str) :
  lower_on_ascii U →
  forallb is_ascii (before_sep 0x5F l1) = true →
  forallb is_ascii (before_sep 0x5F l2) = true →
  ascii_lower <$> before_sep 0x5F l1 = ascii_lower <$> before_sep 0x5F l2 →
  remove_punctuation text (VStr l1) = remove_punctuation text (VStr l2).
Proof.
  intros HU H1 H2 Heq. rewrite !remove_punctuation_eq.
  by rewrite !HU, Heq by done.
Qed.

End punctuation_algebra.

Lemma X4_tag_case_and_region_witness :
  lower_on_ascii ascii_db
  ∧ forallb is_ascii (before_sep 0x5F (u "ZH_Hans")) = true
  ∧ forallb is_ascii (before_sep 0x5F (u "zh_CN")) = true
  ∧ ascii_lower <$> before_sep 0x5F (u "ZH_Hans")
    = ascii_lower <$> before_sep 0x5F (u "zh_CN")
  ∧ remove_punctuation (U:=ascii_db) (u "你好，世界!") (VStr (u "ZH_Hans"))
    = remove_punctuation (U:=ascii_db) (u "你好，世界!") (VStr (u "zh_CN")).
Proof.
  assert (lower_on_ascii ascii_db) as HU by (by intros s _).
  assert (forallb is_ascii (before_sep 0x5F (u "ZH_Hans")) = true) as H1
    by (by vm_compute).
  assert (forallb is_ascii (before_sep 0x5F (u "zh_CN")) = true) as H2
    by (by vm_compute).
  assert (ascii_lower <$> before_sep 0x5F (u "ZH_Hans")
          = ascii_lower <$> before_sep 0x5F (u "zh_CN")) as H3
    by (by vm_compute).
  split; [exact HU|]. split; [exact H1|]. split; [exact H2|].
  split; [exact H3|].
  exact (X4_tag_case_and_region (U:=ascii_db) _ _ _ HU H1 H2 H3).
Defined.

Lemma profile_kept key c : c ∈ profile key → is_kept c = false.
Proof.
  assert (∀ cls, cls ∈ [zh_class; ja_class; ko_class; ascii_class] →
                 Forall (λ c, is_kept c = false) cls) as H.
  { apply Forall_forall. apply (bool_decide_unpack _). by vm_compute. }
  intros Hc. assert (Forall (λ c, is_kept c = false) (profile key)) as HF.
  { apply H. unfold profile.
    destruct (decide (key = u "zh")); [apply list_elem_of_here|].
    apply list_elem_of_further.
    destruct (decide (key = u "ja")); [apply list_elem_of_here|].
    apply list_elem_of_further.
    destruct (decide (key = u "ko")); [apply list_elem_of_here|].
    apply list_elem_of_further, list_elem_of_here. }
  rewrite Forall_forall in HF. by apply HF.
Qed.

Lemma ascii_class_punct c : c ∈ ascii_class → is_ascii_punct c = true.
Proof.
  assert (Forall (λ c, is_ascii_punct c = true) ascii_class) as HF.
  { apply (bool_decide_unpack _). by vm_compute. }
  rewrite Forall_forall in HF. apply HF.
Qed.

(** X5: no profile of the table holds a whitespace character, a digit or
    an ASCII letter, so that remove_punctuation keeps every one of them,
    in place and in order, whatever the language tag; and the default
    profile is exactly the ASCII punctuation. *)
Theorem X5_kept_characters {U : UnicodeDB} :
  (∀ key cls c,
     PUNCTUATION_PATTERNS !! key = Some cls → c ∈ cls → is_kept c = false)
  ∧ (∀ c, c ∈ ascii_class ↔ is_ascii_punct c = true)
  ∧ (∀ text lang, ∃ r,
       remove_punctuation text (VStr lang) = Ok r
       ∧ filter (λ c, is_kept c = true) r
         = filter (λ c, is_kept c = true) text).
Proof.
  split; [|split].
  - intros key cls c Hk Hc. apply (profile_kept key).
    by rewrite <-lookup_profile, Hk.
  - intros c. split; [apply ascii_class_punct|apply ascii_punct_in_class].
  - intros text lang. rewrite remove_punctuation_eq. eexists.
    split; [done|]. unfold delete_chars. apply list_filter_filter_l.
    intros c Hc Hin. apply profile_kept in Hin. congruence.
Qed.

Lemma X5_kept_characters_witness :
  PUNCTUATION_PATTERNS !! u "ko" = Some ko_class
  ∧ (0x3002%Z ∈ ko_class)
  ∧ is_kept 0x3002 = false.
Proof.
  assert (PUNCTUATION_PATTERNS !! u "ko" = Some ko_class) as H1
    by (by vm_compute).
  assert (0x3002%Z ∈ ko_class) as H2.
  { apply (bool_decide_unpack _). by vm_compute. }
  split; [exact H1|]. split; [exact H2|].
  destruct (X5_kept_characters (U:=ascii_db)) as (H & _).
  exact (H _ _ _ H1 H2).
Defined.

(** ** Errors and outputs of text_normalize *)

Lemma remove_punctuation_not_str {U : UnicodeDB} text lang :
  is_str lang = false →
  remove_punctuation text lang = Raise (split_error lang).
Proof. by destruct lang. Qed.

Lemma text_normalize_lang_not_str {U : UnicodeDB} text lang cfg :
  is_str lang = false →
  text_normalize text lang cfg
  = if truthy text && is_str text then Raise (split_error lang) else Ok None.
Proof.
  intros Hl. destruct (is_str text) eqn:Ht.
  - destruct text as [| | | |[|x s]]; try done.
    unfold text_normalize. cbn [truthy nonempty is_str negb orb andb].
    by rewrite remove_punctuation_not_str.
  - rewrite text_normalize_not_text by auto. by rewrite andb_false_r.
Qed.

(** X6: text_normalize raises exactly when the text is a non-empty string
    and the language is not a string (an empty or non-text input is
    dropped before the language is looked at): a TypeError when the
    language is a bytes object, whose split refuses a string separator,
    an AttributeError when it is None, a bool or an int, which have no
    split; it raises nothing else. *)
Theorem X6_text_normalize_errors {U : UnicodeDB}
    (text lang : value) (cfg : config) :
  (text_normalize text lang cfg = Raise AttributeError ↔
     truthy text && is_str text = true
     ∧ is_str lang = false ∧ is_bytes lang = false)
  ∧ (text_normalize text lang cfg = Raise TypeError ↔
       truthy text && is_str text = true ∧ is_bytes lang = true)
  ∧ (∀ e, text_normalize text lang cfg = Raise e →
          e = AttributeError ∨ e = TypeError).
Proof.
  destruct (is_str lang) eqn:Hl.
  - destruct lang as [| | | |l]; try done.
    destruct (text_normalize_result text l cfg) as (r & -> & _).
    split; [|split]; [split; [done|by intros (_ & ? & _)]
                     |split; [done|by intros [_ ?]]|done].
  - rewrite text_normalize_lang_not_str by done.
    destruct (truthy text && is_str text).
    + destruct lang; try done; cbn [split_error is_bytes];
        (split; [|split]);
        try (split; [done|by intros (_ & _ & ?)]);
        try (split; [done|by intros [_ ?]]);
        try (split; [by intros _|done]);
        intros e [= <-]; auto.
    + split; [|split]; [split; [done|by intros [? _]]
                       |split; [done|by intros [? _]]|done].
Qed.

Lemma X6_text_normalize_errors_witness :
  truthy (VStr (u "Hi")) && is_str (VStr (u "Hi")) = true
  ∧ is_str VNone = false
  ∧ is_bytes VNone = false
  ∧ is_bytes (VBytes (u "en")) = true
  ∧ text_normalize (U:=ascii_db) (VStr (u "Hi")) VNone default_config
    = Raise AttributeError
  ∧ text_normalize (U:=ascii_db) (VStr (u "Hi")) (VBytes (u "en"))
      default_config
    = Raise TypeError.
Proof.
  split; [done|]. split; [done|]. split; [done|]. split; [done|]. split.
  - destruct (X6_text_normalize_errors (U:=ascii_db)
                (VStr (u "Hi")) VNone default_config) as [[_ H] _].
    apply H. by repeat split.
  - destruct (X6_text_normalize_errors (U:=ascii_db)
                (VStr (u "Hi")) (VBytes (u "en")) default_config)
      as (_ & [_ H] & _).
    apply H. by split.
Defined.

(** X7: a text that text_normalize returns comes from a non-empty string
    and a string language; it is whitespace-normalized; with
    remove_numbers it is not digit-only; and when the case is left alone
    it holds no ASCII punctuation character. *)
Theorem X7_text_normalize_output {U : UnicodeDB}
    (text lang : value) (cfg : config) (t : str) :
  text_normalize text lang cfg = Ok (Some t) →
  (∃ s, text = VStr s ∧ s ≠ [])
  ∧ is_str lang = true
  ∧ remove_extra_whitespace t = t
  ∧ (remove_numbers cfg = true → remove_digit_only_words t = true)
  ∧ (lower_case cfg = false → ∀ c, is_ascii_punct c = true → c ∉ t).
Proof.
  intros H. destruct (is_str lang) eqn:Hl.
  2:{ rewrite text_normalize_lang_not_str in H by done.
      by destruct (truthy text && is_str text). }
  destruct lang as [| | | |l]; try done.
  destruct (is_str text) eqn:Ht.
  2:{ by rewrite text_normalize_not_text in H by auto. }
  destruct text as [| | | |[|x s]]; try done.
  split; [by eexists|]. split; [done|].
  unfold text_normalize in H. cbn [truthy nonempty is_str negb orb] in H.
  rewrite remove_punctuation_eq in H. cbn [mbind result_bind] in H.
  destruct (remove_numbers cfg && negb _) eqn:Hn in H; [done|].
  destruct (negb _ || _) eqn:He in H; [done|].
  injection H as <-.
  split; [apply remove_extra_whitespace_idem|]. split.
  - intros Hrn. rewrite Hrn in Hn. by apply negb_false_iff in Hn.
  - intros Hlc c Hc Hin. rewrite Hlc in Hin.
    eapply elem_of_sublist in Hin; [|apply strip_sublist].
    apply collapse_elem in Hin as [->|Hin]; [done|].
    apply list_elem_of_filter in Hin as [Hn' _]. apply Hn'.
    destruct (profile_values (str_lower (before_sep 0x5F l))) as [k Hk].
    by eapply ascii_punct_in_pattern.
Qed.

Lemma X7_text_normalize_output_witness :
  text_normalize (U:=ascii_db) (VStr (u " A,b.  c! ")) (VStr (u "en"))
    {| lower_case := false; remove_numbers := true; remove_brackets := false |}
  = Ok (Some (u "Ab c"))
  ∧ remove_extra_whitespace (u "Ab c") = u "Ab c"
  ∧ (0x2C%Z ∉ u "Ab c").
Proof.
  set (cfg := {| lower_case := false; remove_numbers := true;
                 remove_brackets := false |}).
  assert (text_normalize (U:=ascii_db) (VStr (u " A,b.  c! ")) (VStr (u "en"))
            cfg = Ok (Some (u "Ab c"))) as H by (by vm_compute).
  split; [exact H|].
  destruct (X7_text_normalize_output (U:=ascii_db) _ _ _ _ H)
    as (_ & _ & Hw & _ & Hp).
  split; [exact Hw|]. by apply Hp.
Defined.

(** ** Bracket removal, line by line *)

Lemma scan_to_le c blocked s n : scan_to c blocked s = Some n → n ≤ length s.
Proof.
  revert n. induction s as [|d s IH]; [done|]. intros n. simpl.
  destruct (decide (d = c)); [intros [= <-]; lia|].
  destruct (blocked d); [done|].
  destruct (scan_to c blocked s) as [m|]; [|done].
  intros [= <-]. specialize (IH m eq_refl). lia.
Qed.

Lemma scan_to_line c x rest :
  c ≠ 0x0A%Z → 0x0A%Z ∉ x →
  scan_to c (Z.eqb 0x0A) (x ++ 0x0A%Z :: rest) = scan_to c (Z.eqb 0x0A) x.
Proof.
  intros Hc. induction x as [|d x IH]; simpl.
  { intros _. by rewrite decide_False. }
  intros [Hd Hx]%not_elem_of_cons. by rewrite IH.
Qed.

Lemma scan_to_no_line c x :
  0x0A%Z ∉ x → scan_to c (Z.eqb 0x0A) x = scan_to c (λ _, false) x.
Proof.
  induction x as [|d x IH]; [done|]. cbn [scan_to].
  intros [Hd Hx]%not_elem_of_cons. rewrite IH by done.
  destruct (0x0A =? d)%Z eqn:He; [|done]. apply Z.eqb_eq in He. congruence.
Qed.

Lemma not_elem_of_drop {A} (x : A) n l : x ∉ l → x ∉ drop n l.
Proof. intros Hx Hin. apply Hx. eapply elem_of_sublist, sublist_drop. done. Qed.

(** A lazy pass never looks across a line feed. *)
Lemma lazydot_line o c l rest :
  o ≠ 0x0A%Z → c ≠ 0x0A%Z → 0x0A%Z ∉ l →
  re_sub (re_lazydot o c) [] (l ++ 0x0A%Z :: rest)
  = re_sub (re_lazydot o c) [] l
    ++ 0x0A%Z :: re_sub (re_lazydot o c) [] rest.
Proof.
  intros Ho Hc. induction l as [l IH] using length_ind.
  destruct l as [|x l]; intros Hl.
  { simpl. rewrite re_sub_cons. unfold re_lazydot at 1.
    by rewrite decide_False. }
  apply not_elem_of_cons in Hl as [Hx Hl]. simpl.
  rewrite (re_sub_cons _ _ x (l ++ 0x0A%Z :: rest)), (re_sub_cons _ _ x l).
  assert (re_lazydot o c x (l ++ 0x0A%Z :: rest) = re_lazydot o c x l) as ->.
  { unfold re_lazydot. case_decide; [by apply scan_to_line|done]. }
  destruct (re_lazydot o c x l) as [n|] eqn:Hs.
  - assert (n ≤ length l) as Hn.
    { unfold re_lazydot in Hs. case_decide; [by eapply scan_to_le|done]. }
    simpl. rewrite drop_app_le by done.
    apply IH; [simpl; rewrite length_drop; lia|].
    by apply not_elem_of_drop.
  - simpl. f_equal. apply IH; [simpl; lia|done].
Qed.

(** On one line the lazy pass is the pass of the negated class. *)
Lemma lazydot_negclass o c l :
  0x0A%Z ∉ l →
  re_sub (re_lazydot o c) [] l = re_sub (re_negclass o c) [] l.
Proof.
  induction l as [l IH] using length_ind.
  destruct l as [|x l]; [done|]. intros [Hx Hl]%not_elem_of_cons.
  rewrite !re_sub_cons.
  assert (re_lazydot o c x l = re_negclass o c x l) as ->.
  { unfold re_lazydot, re_negclass. by rewrite scan_to_no_line. }
  destruct (re_negclass o c x l) as [n|] eqn:Hs.
  - simpl. apply IH; [simpl; rewrite length_drop; lia|].
    by apply not_elem_of_drop.
  - f_equal. apply IH; [simpl; lia|done].
Qed.

Lemma lazydot_id o c s :
  no_pair o c s → re_sub (re_lazydot o c) [] s = s.
Proof. apply (pass_no_pair o c (Z.eqb 0x0A)). Qed.

Lemma remove_brackets_content_sublist s :
  remove_brackets_content s `sublist_of` s.
Proof.
  unfold remove_brackets_content.
  repeat (etrans; [apply re_sub_sublist|]). done.
Qed.

Lemma remove_brackets_content_line l rest :
  0x0A%Z ∉ l →
  remove_brackets_content (l ++ 0x0A%Z :: rest)
  = remove_brackets_content l ++ 0x0A%Z :: remove_brackets_content rest.
Proof.
  intros Hl. unfold remove_brackets_content.
  rewrite lazydot_line by done.
  rewrite lazydot_line by (try done; by apply re_sub_not_elem).
  rewrite lazydot_line by (try done; by do 2 apply re_sub_not_elem).
  rewrite lazydot_line by (try done; by do 3 apply re_sub_not_elem).
  done.
Qed.

Lemma remove_brackets_content_no_pair l :
  0x0A%Z ∉ l →
  no_pair 0x5B 0x5D (remove_brackets_content l)
  ∧ no_pair 0x3C 0x3E (remove_brackets_content l)
  ∧ no_pair 0x7B 0x7D (remove_brackets_content l)
  ∧ no_pair 0x28 0x29 (remove_brackets_content l).
Proof.
  intros Hl. unfold remove_brackets_content.
  set (s1 := re_sub (re_lazydot 0x5B 0x5D) [] l).
  set (s2 := re_sub (re_lazydot 0x3C 0x3E) [] s1).
  set (s3 := re_sub (re_lazydot 0x7B 0x7D) [] s2).
  assert (0x0A%Z ∉ s1) as H1 by (by apply re_sub_not_elem).
  assert (0x0A%Z ∉ s2) as H2 by (by apply re_sub_not_elem).
  assert (0x0A%Z ∉ s3) as H3 by (by apply re_sub_not_elem).
  assert (no_pair 0x5B 0x5D s1) as P1.
  { subst s1. rewrite lazydot_negclass by done. apply negclass_no_pair. }
  assert (no_pair 0x3C 0x3E s2) as P2.
  { subst s2. rewrite lazydot_negclass by done. apply negclass_no_pair. }
  assert (no_pair 0x7B 0x7D s3) as P3.
  { subst s3. rewrite lazydot_negclass by done. apply negclass_no_pair. }
  split; [|split; [|split]].
  - do 3 (eapply no_pair_sublist; [apply re_sub_sublist|]). exact P1.
  - do 2 (eapply no_pair_sublist; [apply re_sub_sublist|]). exact P2.
  - eapply no_pair_sublist; [apply re_sub_sublist|]. exact P3.
  - rewrite lazydot_negclass by done. apply negclass_no_pair.
Qed.

Lemma remove_brackets_content_id s :
  no_pair 0x5B 0x5D s → no_pair 0x3C 0x3E s →
  no_pair 0x7B 0x7D s → no_pair 0x28 0x29 s →
  remove_brackets_content s = s.
Proof.
  intros H1 H2 H3 H4. unfold remove_brackets_content.
  by rewrite (lazydot_id _ _ s H1), (lazydot_id _ _ s H2),
    (lazydot_id _ _ s H3), (lazydot_id _ _ s H4).
Qed.

Lemma remove_brackets_content_idem s :
  remove_brackets_content (remove_brackets_content s)
  = remove_brackets_content s.
Proof.
  induction s as [s IH] using length_ind.
  destruct (decide (0x0A%Z ∈ s)) as [Hnl|Hnl].
  - apply list_elem_of_split_l in Hnl as (l & rest & -> & Hl).
    rewrite remove_brackets_content_line by done.
    rewrite remove_brackets_content_line.
    + rewrite (IH l), (IH rest); [done|rewrite length_app; simpl; lia..].
    + intros Hin. apply Hl.
      eapply elem_of_sublist, remove_brackets_content_sublist. done.
  - destruct (remove_brackets_content_no_pair s Hnl) as (?&?&?&?).
    by apply remove_brackets_content_id.
Qed.

(** X8: remove_brackets_content works line by line: a bracketed span never
    crosses a line feed, so the result for a text is the result for its
    first line, the line feed, and the result for the rest. *)
Theorem X8_brackets_line_by_line (l rest : str) :
  0x0A%Z ∉ l →
  remove_brackets_content (l ++ 0x0A%Z :: rest)
  = remove_brackets_content l ++ 0x0A%Z :: remove_brackets_content rest.
Proof. apply remove_brackets_content_line. Qed.

Lemma X8_brackets_line_by_line_witness :
  (0x0A%Z ∉ u "a [b")
  ∧ remove_brackets_content (u "a [b" ++ 0x0A%Z :: u "c] (d) e")
    = u "a [b" ++ 0x0A%Z :: u "c]  e".
Proof.
  assert (0x0A%Z ∉ u "a [b") as H.
  { apply (bool_decide_unpack _). by vm_compute. }
  split; [exact H|].
  rewrite (X8_brackets_line_by_line (u "a [b") (u "c] (d) e") H).
  by vm_compute.
Defined.

(** X9: remove_brackets_content only deletes characters, and applying it
    to its own output changes nothing. *)
Theorem X9_brackets_idempotent (s : str) :
  remove_brackets_content s `sublist_of` s
  ∧ remove_brackets_content (remove_brackets_content s)
    = remove_brackets_content s.
Proof.
  split; [apply remove_brackets_content_sublist|].
  apply remove_brackets_content_idem.
Qed.

(** X10: on a text without line feed the output of remove_brackets_content
    holds no complete pair of any of the four bracket kinds; and a text,
    with or without line feeds, that holds no complete pair of any kind
    is returned unchanged. *)
Theorem X10_brackets_no_pair_left :
  (∀ s, 0x0A%Z ∉ s →
        no_pair 0x5B 0x5D (remove_brackets_content s)
        ∧ no_pair 0x3C 0x3E (remove_brackets_content s)
        ∧ no_pair 0x7B 0x7D (remove_brackets_content s)
        ∧ no_pair 0x28 0x29 (remove_brackets_content s))
  ∧ (∀ s, no_pair 0x5B 0x5D s → no_pair 0x3C 0x3E s →
          no_pair 0x7B 0x7D s → no_pair 0x28 0x29 s →
          remove_brackets_content s = s).
Proof.
  split; [apply remove_brackets_content_no_pair|].
  apply remove_brackets_content_id.
Qed.

Lemma X10_brackets_no_pair_left_witness :
  (0x0A%Z ∉ u "a (b [c) d] e")
  ∧ remove_brackets_content (u "a (b [c) d] e") = u "a (b  e"
  ∧ no_pair 0x28 0x29 (u "a (b  e").
Proof.
  assert (0x0A%Z ∉ u "a (b [c) d] e") as H.
  { apply (bool_decide_unpack _). by vm_compute. }
  assert (remove_brackets_content (u "a (b [c) d] e") = u "a (b  e") as Hr
    by (by vm_compute).
  split; [exact H|]. split; [exact Hr|].
  destruct X10_brackets_no_pair_left as [Hn _].
  destruct (Hn _ H) as (_ & _ & _ & Hp). by rewrite Hr in Hp.
Defined.

(** ** The annotation pipeline *)

Lemma clean_vaani_transcript_output v :
  let r := clean_vaani_transcript v in
  no_pair 0x7B 0x7D r ∧ no_pair 0x3C 0x3E r ∧ no_dash_run r
  ∧ remove_extra_whitespace r = r.
Proof.
  intros r. subst r. destruct (is_str v) eqn:Hv.
  - destruct v as [| | | |s]; try done.
    rewrite clean_vaani_transcript_str.
    split; [|split; [|split]].
    + apply remove_extra_whitespace_no_pair; [done..|].
      do 2 (eapply no_pair_sublist; [apply re_sub_sublist|]).
      apply negclass_no_pair.
    + apply remove_extra_whitespace_no_pair; [done..|].
      eapply no_pair_sublist; [apply re_sub_sublist|].
      apply negclass_no_pair.
    + apply remove_extra_whitespace_no_dash_run, dashes_no_dash_run.
    + apply remove_extra_whitespace_idem.
  - rewrite clean_vaani_transcript_other by done.
    split; [apply no_pair_nil|]. split; [apply no_pair_nil|].
    split; [apply no_dash_run_nil|done].
Qed.

Lemma clean_vaani_transcript_pass s :
  no_pair 0x7B 0x7D s → no_pair 0x3C 0x3E s → no_dash_run s →
  clean_vaani_transcript (VStr s) = remove_extra_whitespace s.
Proof.
  intros Hb Ha Hd. rewrite clean_vaani_transcript_str.
  rewrite (negclass_id 0x7B 0x7D s Hb), (negclass_id 0x3C 0x3E s Ha).
  by rewrite dashes_id.
Qed.

Lemma clean_vaani_transcript_idem v :
  clean_vaani_transcript (VStr (clean_vaani_transcript v))
  = clean_vaani_transcript v.
Proof.
  destruct (clean_vaani_transcript_output v) as (Hb & Ha & Hd & Hw).
  by rewrite clean_vaani_transcript_pass.
Qed.

Lemma sublist_filter_mono {A} (P : A → Prop) `{!∀ x, Decision (P x)} l k :
  l `sublist_of` k → filter P l `sublist_of` filter P k.
Proof.
  induction 1 as [|x l k Hlk IH|x l k Hlk IH]; [done| |].
  - rewrite !filter_cons. destruct (decide (P x)); [by apply sublist_skip|done].
  - rewrite filter_cons. destruct (decide (P x)); [by apply sublist_cons|done].
Qed.

Lemma collapse_length s : length (collapse s) ≤ length s.
Proof.
  induction s as [s IH] using length_ind. destruct s as [|x s]; [done|].
  destruct (is_space x) eqn:Hx.
  - rewrite collapse_space by done. simpl.
    pose proof (lstrip_length s) as Hl.
    specialize (IH (lstrip s)). simpl in IH. lia.
  - rewrite collapse_nonspace by done. simpl.
    specialize (IH s). simpl in IH. lia.
Qed.

Lemma remove_extra_whitespace_length s :
  length (remove_extra_whitespace s) ≤ length s.
Proof.
  unfold remove_extra_whitespace.
  etrans; [apply sublist_length, strip_sublist|apply collapse_length].
Qed.

(** X11: clean_vaani_transcript only deletes: the non-whitespace characters
    of its output are a subsequence of those of the input, and the output
    is never longer than the input. *)
Theorem X11_clean_only_deletes (s : str) :
  filter (λ c, is_space c = false) (clean_vaani_transcript (VStr s))
    `sublist_of` filter (λ c, is_space c = false) s
  ∧ length (clean_vaani_transcript (VStr s)) ≤ length s.
Proof.
  rewrite clean_vaani_transcript_str. split.
  - rewrite remove_extra_whitespace_content. apply sublist_filter_mono.
    repeat (etrans; [apply re_sub_sublist|]). done.
  - etrans; [apply remove_extra_whitespace_length|].
    apply sublist_length. repeat (etrans; [apply re_sub_sublist|]). done.
Qed.

Lemma no_dash_run_no_dash s : 0x2D%Z ∉ s → no_dash_run s.
Proof.
  intros Hs pre rest ->. apply Hs, elem_of_app. right. by left.
Qed.

(** X12: a transcript without a complete '{' ... '}' pair, without a
    complete '<' ... '>' pair and without a run of hyphens passes through
    clean_vaani_transcript with its whitespace normalized and nothing
    else changed. *)
Theorem X12_clean_pass_through (s : str) :
  no_pair 0x7B 0x7D s → no_pair 0x3C 0x3E s → no_dash_run s →
  clean_vaani_transcript (VStr s) = remove_extra_whitespace s.
Proof. apply clean_vaani_transcript_pass. Qed.

Lemma X12_clean_pass_through_witness :
  no_pair 0x7B 0x7D (u "सामान्य वाक्य बिना कोई special tokens")
  ∧ no_pair 0x3C 0x3E (u "सामान्य वाक्य बिना कोई special tokens")
  ∧ no_dash_run (u "सामान्य वाक्य बिना कोई special tokens")
  ∧ clean_vaani_transcript (VStr (u "सामान्य वाक्य बिना कोई special tokens"))
    = u "सामान्य वाक्य बिना कोई special tokens".
Proof.
  set (s := u "सामान्य वाक्य बिना कोई special tokens").
  assert (no_pair 0x7B 0x7D s) as H1.
  { apply no_pair_no_close. apply (bool_decide_unpack _). by vm_compute. }
  assert (no_pair 0x3C 0x3E s) as H2.
  { apply no_pair_no_close. apply (bool_decide_unpack _). by vm_compute. }
  assert (no_dash_run s) as H3.
  { apply no_dash_run_no_dash. apply (bool_decide_unpack _). by vm_compute. }
  split; [exact H1|]. split; [exact H2|]. split; [exact H3|].
  rewrite (X12_clean_pass_through s H1 H2 H3). by vm_compute.
Defined.

Lemma normalize_vaani_transcript_false v :
  normalize_vaani_transcript v false = clean_vaani_transcript v.
Proof.
  unfold normalize_vaani_transcript.
  destruct (clean_vaani_transcript_output v) as (_ & _ & _ & Hw).
  destruct (clean_vaani_transcript v) as [|x r]; [done|]. exact Hw.
Qed.

(** X13: without the punctuation flag normalize_vaani_transcript is
    clean_vaani_transcript: its second whitespace pass finds nothing to
    do; so it is idempotent as well. *)
Theorem X13_normalize_vaani_is_clean (v : value) :
  normalize_vaani_transcript v false = clean_vaani_transcript v
  ∧ normalize_vaani_transcript (VStr (normalize_vaani_transcript v false))
      false
    = normalize_vaani_transcript v false.
Proof.
  split; [apply normalize_vaani_transcript_false|].
  rewrite !normalize_vaani_transcript_false.
  apply clean_vaani_transcript_idem.
Qed.

Lemma filter_all {A} (P : A → Prop) `{!∀ x, Decision (P x)} (l : list A) :
  (∀ x, P x) → filter P l = l.
Proof.
  intros HP. induction l as [|x l IH]; [done|].
  by rewrite filter_cons, decide_True, IH.
Qed.

Lemma foldl_replace_delete ps t :
  foldl (λ text punct, replace_char_empty punct text) t ps
  = delete_chars ps t.
Proof.
  revert t. induction ps as [|p ps IH]; intros t; simpl.
  { unfold delete_chars. symmetry. apply filter_all.
    intros c. apply not_elem_of_nil. }
  rewrite IH. unfold delete_chars, replace_char_empty.
  rewrite list_filter_filter. apply list_filter_iff. intros c.
  rewrite not_elem_of_cons. tauto.
Qed.

(** X14: with the punctuation flag normalize_vaani_transcript deletes the
    ten marks of its list from the cleaned transcript and normalizes the
    whitespace again: the result holds none of the marks, is
    whitespace-normalized and still has no complete '{' ... '}' or
    '<' ... '>' pair; but a deleted mark can bring hyphens together, so
    that a run of hyphens may be left. *)
Theorem X14_normalize_vaani_punctuation :
  (∀ v, let r := normalize_vaani_transcript v true in
     r = remove_extra_whitespace
           (delete_chars devanagari_punct (clean_vaani_transcript v))
     ∧ (∀ c, c ∈ devanagari_punct → c ∉ r)
     ∧ remove_extra_whitespace r = r
     ∧ no_pair 0x7B 0x7D r
     ∧ no_pair 0x3C 0x3E r)
  ∧ ¬ (∀ v, no_dash_run (normalize_vaani_transcript v true)).
Proof.
  split.
  - intros v r.
    assert (r = remove_extra_whitespace
                  (delete_chars devanagari_punct (clean_vaani_transcript v)))
      as Hr.
    { subst r. unfold normalize_vaani_transcript.
      destruct (clean_vaani_transcript v) as [|x t]; [done|].
      cbn [nonempty negb]. by rewrite foldl_replace_delete. }
    destruct (clean_vaani_transcript_output v) as (Hb & Ha & _ & _).
    split; [done|]. rewrite Hr. split; [|split; [|split]].
    + intros c Hc Hin.
      eapply elem_of_sublist in Hin; [|apply strip_sublist].
      apply collapse_elem in Hin as [->|Hin].
      * revert Hc. apply (bool_decide_unpack _). by vm_compute.
      * apply list_elem_of_filter in Hin as [Hn _]. by apply Hn.
    + apply remove_extra_whitespace_idem.
    + apply remove_extra_whitespace_no_pair; [done..|].
      eapply no_pair_sublist; [apply sublist_filter|done].
    + apply remove_extra_whitespace_no_pair; [done..|].
      eapply no_pair_sublist; [apply sublist_filter|done].
  - intros H. specialize (H (VStr (u "-.-"))).
    apply (H [] []). by vm_compute.
Qed.

Lemma X14_normalize_vaani_punctuation_witness :
  (0x964%Z ∈ devanagari_punct)
  ∧ normalize_vaani_transcript (VStr (u "हाँ, ठीक है। {ok}")) true
    = u "हाँ ठीक है"
  ∧ (0x964%Z ∉ u "हाँ ठीक है").
Proof.
  set (v := VStr (u "हाँ, ठीक है। {ok}")).
  assert (0x964%Z ∈ devanagari_punct) as H.
  { apply (bool_decide_unpack _). by vm_compute. }
  assert (normalize_vaani_transcript v true = u "हाँ ठीक है") as Hr
    by (by vm_compute).
  split; [exact H|]. split; [exact Hr|].
  destruct X14_normalize_vaani_punctuation as [Hall _].
  destruct (Hall v) as (_ & Hp & _). rewrite <-Hr. by apply Hp.
Defined.

(** ** The batch adapters, errors included *)

(** X15: batch_clean_vaani_transcripts raises KeyError when the batch has
    no transcript column; otherwise it returns the batch with that column
    replaced and every other column as it was, and applying it to its own
    result changes nothing. *)
Theorem X15_batch_clean_vaani (batch : gmap (list Z) (list value)) (tc : str) :
  (batch !! tc = None →
   batch_clean_vaani_transcripts batch tc = Raise (KeyError tc))
  ∧ (∀ texts, batch !! tc = Some texts →
       ∃ b', batch_clean_vaani_transcripts batch tc = Ok b'
             ∧ (∀ k, k ≠ tc → b' !! k = batch !! k)
             ∧ batch_clean_vaani_transcripts b' tc = Ok b').
Proof.
  unfold batch_clean_vaani_transcripts, getitem. split.
  - by intros ->.
  - intros texts ->. eexists. split; [done|]. split.
    + intros k Hk. by rewrite lookup_insert_ne.
    + rewrite lookup_insert_eq. cbn [mbind result_bind mret result_ret].
      rewrite insert_insert_eq. do 2 f_equal.
      rewrite <-list_fmap_compose. apply list_fmap_ext. intros i text _.
      unfold compose. cbv beta zeta.
      rewrite !normalize_vaani_transcript_false.
      assert (∀ t : str, (if nonempty t then t else []) = t) as Hne
        by (by intros [|??]).
      by rewrite !Hne, clean_vaani_transcript_idem.
Qed.

Lemma X15_batch_clean_vaani_witness :
  let batch : gmap (list Z) (list value) :=
    <[u "transcript" := [VStr (u "a {b} c"); VNone]]>
      (<[u "id" := [VInt 1; VInt 2]]> ∅) in
  batch !! u "transcript" = Some [VStr (u "a {b} c"); VNone]
  ∧ u "id" ≠ u "transcript"
  ∧ ∃ b', batch_clean_vaani_transcripts batch (u "transcript") = Ok b'
          ∧ b' !! u "id" = batch !! u "id"
          ∧ batch_clean_vaani_transcripts b' (u "transcript") = Ok b'.
Proof.
  intros batch.
  assert (batch !! u "transcript" = Some [VStr (u "a {b} c"); VNone]) as H
    by (by vm_compute).
  assert (u "id" ≠ u "transcript") as Hne by (by vm_compute).
  split; [exact H|]. split; [exact Hne|].
  destruct (X15_batch_clean_vaani batch (u "transcript")) as [_ Hok].
  destruct (Hok _ H) as (b' & Hb' & Hother & Hidem).
  exists b'. split; [exact Hb'|]. split; [exact (Hother _ Hne)|exact Hidem].
Defined.

Lemma mapM_result_cases {A B} (f : A → result B) l :
  (∃ ys, mapM f l = Ok ys ∧ Forall (λ x, ∃ y, f x = Ok y) l)
  ∨ (∃ e x, mapM f l = Raise e ∧ x ∈ l ∧ f x = Raise e).
Proof.
  induction l as [|x l IH]; [left; by eexists|]. cbn [mapM].
  destruct (f x) as [y|e] eqn:Hx.
  - cbn [mbind result_bind].
    destruct IH as [(ys & -> & Hl)|(e & x' & -> & Hin & Hx')].
    + left. eexists. split; [done|]. constructor; eauto.
    + right. exists e, x'. split; [done|]. split; [by right|done].
  - right. exists e, x. split; [done|]. split; [by left|done].
Qed.

Section batch_outcomes.
Context {U : UnicodeDB}.
Context (batch : gmap (list Z) (list value)) (tc lc : str) (cfg : config).

Local Abbreviation row :=
  (λ '(text, lang),
     normalized ← text_normalize text lang cfg;
     mret (VStr (or_empty normalized))).

Lemma batch_normalize_text_no_text :
  batch !! tc = None →
  batch_normalize_text batch tc lc cfg = Raise (KeyError tc).
Proof.
  intros Htc. unfold batch_normalize_text, getitem. rewrite Htc.
  destruct (batch !! lc) as [langs|].
  - by rewrite decide_True by eauto.
  - rewrite decide_False; [done|]. by intros [? ?].
Qed.

Lemma batch_normalize_text_rows texts :
  batch !! tc = Some texts →
  batch_normalize_text batch tc lc cfg
  = normalized_texts ←
      mapM row (zip texts (languages_of batch lc (length texts)));
    mret (<[tc := normalized_texts]> batch).
Proof.
  intros Htc. unfold batch_normalize_text, getitem, languages_of.
  rewrite Htc. destruct (batch !! lc) as [langs|].
  - by rewrite decide_True by eauto.
  - rewrite decide_False; [done|]. by intros [? ?].
Qed.

Lemma row_outcome (p : value * value) :
  (truthy p.1 && is_str p.1 = true ∧ is_str p.2 = false
   ∧ row p = Raise (split_error p.2))
  ∨ ((truthy p.1 && is_str p.1 = true → is_str p.2 = true)
     ∧ ∃ r, text_normalize p.1 p.2 cfg = Ok r
            ∧ row p = Ok (VStr (default [] r))).
Proof.
  destruct p as [text lang]. cbn [fst snd].
  destruct (is_str lang) eqn:Hl.
  - right. split; [done|]. destruct lang as [| | | |l]; try done.
    destruct (text_normalize_result text l cfg) as (r & Hr & _).
    exists r. split; [done|]. rewrite Hr.
    cbn [mbind result_bind mret result_ret]. by rewrite or_empty_default.
  - rewrite (text_normalize_lang_not_str text lang cfg Hl).
    destruct (truthy text && is_str text); [left; by split|].
    right. split; [done|]. by exists None.
Qed.

Lemma rows_ok l :
  Forall (λ p : value * value,
            truthy p.1 && is_str p.1 = true → is_str p.2 = true) l →
  mapM row l
  = Ok ((λ p, VStr (default [] (match text_normalize p.1 p.2 cfg with
                                | Ok r => r | Raise _ => None end))) <$> l).
Proof.
  intros Hl. apply mapM_result_ok. eapply Forall_impl; [exact Hl|].
  intros p Hp. destruct (row_outcome p) as [(H1 & H2 & _)|(_ & r & Hr & ->)].
  - rewrite Hp in H2; done.
  - cbv beta. by rewrite Hr.
Qed.

(** X16: batch_normalize_text raises KeyError when the text column is
    missing, whether or not there is a language column; with the text
    column present it raises exactly when some row within the shorter of
    the two columns has a non-empty string as text and a language that is
    not a string: a TypeError only if such a row has a bytes language, an
    AttributeError only if such a row has a language that is neither a
    string nor bytes; it raises nothing else. *)
Theorem X16_batch_normalize_errors :
  (batch !! tc = None →
   batch_normalize_text batch tc lc cfg = Raise (KeyError tc))
  ∧ (∀ texts, batch !! tc = Some texts →
       let rows := zip texts (languages_of batch lc (length texts)) in
       ((∃ e, batch_normalize_text batch tc lc cfg = Raise e) ↔
          Exists (λ p : value * value,
                    truthy p.1 && is_str p.1 = true ∧ is_str p.2 = false)
                 rows)
       ∧ (batch_normalize_text batch tc lc cfg = Raise TypeError →
          Exists (λ p : value * value,
                    truthy p.1 && is_str p.1 = true ∧ is_bytes p.2 = true)
                 rows)
       ∧ (batch_normalize_text batch tc lc cfg = Raise AttributeError →
          Exists (λ p : value * value,
                    truthy p.1 && is_str p.1 = true
                    ∧ is_str p.2 = false ∧ is_bytes p.2 = false)
                 rows)
       ∧ (∀ e, batch_normalize_text batch tc lc cfg = Raise e →
               e = AttributeError ∨ e = TypeError))
  ∧ (∀ e, batch_normalize_text batch tc lc cfg = Raise e →
          e = KeyError tc ∨ e = AttributeError ∨ e = TypeError).
Proof.
  split; [apply batch_normalize_text_no_text|].
  assert (∀ texts, batch !! tc = Some texts →
            let rows := zip texts (languages_of batch lc (length texts)) in
            (¬ Exists (λ p : value * value,
                 truthy p.1 && is_str p.1 = true ∧ is_str p.2 = false) rows
             ∧ ∃ b', batch_normalize_text batch tc lc cfg = Ok b')
            ∨ (∃ p, p ∈ rows
                 ∧ truthy p.1 && is_str p.1 = true ∧ is_str p.2 = false
                 ∧ batch_normalize_text batch tc lc cfg
                   = Raise (split_error p.2))) as Hcase.
  { intros texts Htc rows. rewrite (batch_normalize_text_rows texts Htc).
    fold rows.
    destruct (mapM_result_cases row rows)
      as [(ys & -> & Hok)|(e & p & -> & Hin & Hp)].
    - left. split; [|by eexists]. intros Hex.
      apply Exists_exists in Hex as (p & Hin & H1 & H2).
      rewrite Forall_forall in Hok. destruct (Hok _ Hin) as [y Hy].
      destruct (row_outcome p) as [(_ & _ & Hr)|[Hg _]]; [congruence|].
      rewrite Hg in H2; done.
    - right. exists p. split; [done|].
      destruct (row_outcome p) as [(H1 & H2 & Hr)|(_ & r & _ & Hr)];
        [|congruence].
      split; [done|]. split; [done|]. cbn [mbind result_bind]. congruence. }
  assert (∀ v, split_error v = TypeError → is_bytes v = true) as Hty
    by (by intros []).
  assert (∀ v, split_error v = AttributeError → is_bytes v = false) as Hat
    by (by intros []).
  assert (∀ v, split_error v = AttributeError ∨ split_error v = TypeError)
    as Hse by (intros []; auto).
  split.
  - intros texts Htc rows.
    destruct (Hcase texts Htc) as [[Hex [b' Hr]]|(p & Hin & H1 & H2 & Hr)];
      fold rows in Hex || fold rows in Hin; rewrite Hr.
    + split; [|split; [|split]]; try done.
      split; [by intros [e ?]|done].
    + split; [|split; [|split]].
      * split; [intros _|by eexists].
        apply Exists_exists. by exists p.
      * intros [= He]. apply Exists_exists. exists p. auto.
      * intros [= He]. apply Exists_exists. exists p. auto.
      * intros e [= <-]. apply Hse.
  - intros e He. destruct (batch !! tc) as [texts|] eqn:Htc.
    + destruct (Hcase texts eq_refl)
        as [[_ [b' Hr]]|(p & _ & _ & _ & Hr)]; rewrite Hr in He; [done|].
      injection He as <-. right. apply Hse.
    + rewrite batch_normalize_text_no_text in He by done. left. congruence.
Qed.

(** X17: when every row with a non-empty string as text has a string as
    language, batch_normalize_text succeeds, and its text column has as
    many rows as the shorter of the text and language columns: rows
    beyond the end of a shorter language column are silently cut off.
    Every row that is left holds the normalized text, or the empty
    string for a dropped record; the other columns are unchanged. *)
Theorem X17_batch_normalize_rows (texts : list value) :
  batch !! tc = Some texts →
  Forall (λ p : value * value,
            truthy p.1 && is_str p.1 = true → is_str p.2 = true)
         (zip texts (languages_of batch lc (length texts))) →
  ∃ out,
    batch_normalize_text batch tc lc cfg = Ok (<[tc := out]> batch)
    ∧ length out
      = length texts `min` length (languages_of batch lc (length texts))
    ∧ (∀ i text lang,
         texts !! i = Some text →
         languages_of batch lc (length texts) !! i = Some lang →
         ∃ r, text_normalize text lang cfg = Ok r
              ∧ out !! i = Some (VStr (default [] r)))
    ∧ (∀ k, k ≠ tc → (<[tc := out]> batch) !! k = batch !! k).
Proof.
  intros Htc Hgood. rewrite (batch_normalize_text_rows texts Htc).
  rewrite rows_ok by done. eexists. split; [done|]. split; [|split].
  - by rewrite length_fmap, length_zip_with.
  - intros i text lang Hi Hl.
    assert ((text, lang) ∈ zip texts (languages_of batch lc (length texts)))
      as Hin.
    { apply list_elem_of_lookup. exists i.
      by rewrite lookup_zip_with, Hi; simpl; rewrite Hl. }
    rewrite Forall_forall in Hgood. specialize (Hgood _ Hin).
    destruct (row_outcome (text, lang)) as [(H1 & H2 & _)|(_ & r & Hr & _)].
    { rewrite Hgood in H2; done. }
    exists r. split; [done|].
    rewrite list_lookup_fmap, lookup_zip_with, Hi. simpl. rewrite Hl.
    simpl. cbn [fst snd] in Hr. by rewrite Hr.
  - intros k Hk. by rewrite lookup_insert_ne.
Qed.

End batch_outcomes.

(** C3 (amended): on a batch that has the text column, whose language
    column, when there is one, has as many rows, and in which the
    language of every row whose text is a non-empty string is a string,
    batch_normalize_text returns the batch with a text column of the same
    number of rows, row by row in the same order, a dropped record being
    the empty string in its place; batch_clean_vaani_transcripts does so
    on every batch that has the transcript column. *)
Theorem C3_batch_size {U : UnicodeDB} :
  (∀ (batch : gmap (list Z) (list value)) tc lc cfg texts,
     batch !! tc = Some texts →
     (∀ langs, batch !! lc = Some langs → length langs = length texts) →
     (∀ i text lang,
        texts !! i = Some text →
        languages_of batch lc (length texts) !! i = Some lang →
        truthy text && is_str text = true → is_str lang = true) →
     ∃ out,
       batch_normalize_text batch tc lc cfg = Ok (<[tc := out]> batch)
       ∧ length out = length texts
       ∧ ∀ i text lang,
           texts !! i = Some text →
           languages_of batch lc (length texts) !! i = Some lang →
           ∃ r, text_normalize text lang cfg = Ok r
                ∧ out !! i = Some (VStr (default [] r)))
  ∧ (∀ (batch : gmap (list Z) (list value)) tc texts,
       batch !! tc = Some texts →
       ∃ out,
         batch_clean_vaani_transcripts batch tc = Ok (<[tc := out]> batch)
         ∧ length out = length texts
         ∧ ∀ i text,
             texts !! i = Some text →
             out !! i = Some (VStr (normalize_vaani_transcript text false))).
Proof.
  split.
  - intros batch tc lc cfg texts Htc Hlen Hgood.
    set (languages := languages_of batch lc (length texts)) in *.
    assert (length languages = length texts) as Hl.
    { subst languages. unfold languages_of.
      destruct (batch !! lc) as [langs|]; [by apply Hlen|].
      apply length_replicate. }
    assert (Forall (λ p : value * value,
                      truthy p.1 && is_str p.1 = true → is_str p.2 = true)
                   (zip texts languages)) as HF.
    { apply Forall_forall. intros [text lang] Hin.
      apply list_elem_of_lookup in Hin as [i Hi].
      rewrite lookup_zip_with in Hi.
      destruct (texts !! i) as [text'|] eqn:Ht; [|done]. simpl in Hi.
      destruct (languages !! i) as [lang'|] eqn:Hg; [|done].
      simplify_eq/=. by eapply Hgood. }
    rewrite (batch_normalize_text_rows batch tc lc cfg texts Htc).
    fold languages. rewrite rows_ok by done.
    eexists. split; [done|]. split.
    { rewrite length_fmap, length_zip_with. lia. }
    intros i text lang Hi Hg.
    destruct (row_outcome cfg (text, lang))
      as [(H1 & H2 & _)|(_ & r & Hr & _)].
    { cbn [fst snd] in *. rewrite (Hgood i text lang Hi Hg H1) in H2. done. }
    exists r. split; [done|].
    rewrite list_lookup_fmap, lookup_zip_with, Hi. simpl. rewrite Hg.
    simpl. cbn [fst snd] in Hr. by rewrite Hr.
  - intros batch tc texts Htc.
    unfold batch_clean_vaani_transcripts, getitem. rewrite Htc.
    eexists. split; [done|]. split; [by rewrite length_fmap|].
    intros i text Hi. rewrite list_lookup_fmap, Hi. simpl.
    by destruct (normalize_vaani_transcript text false).
Qed.

Lemma C3_batch_size_witness :
  let texts := [VStr (u "Hi!"); VNone; VStr (u "12"); VStr (u "。")] in
  let langs := [VStr (u "en"); VNone; VStr (u "xx"); VStr (u "zh_CN")] in
  let batch : gmap (list Z) (list value) :=
    <[u "text" := texts]> (<[u "language" := langs]> ∅) in
  batch !! u "text" = Some texts
  ∧ batch !! u "language" = Some langs
  ∧ length langs = length texts
  ∧ ∃ out,
      batch_normalize_text (U:=ascii_db) batch (u "text") (u "language")
        default_config = Ok (<[u "text" := out]> batch)
      ∧ length out = 4.
Proof.
  intros texts langs batch.
  assert (batch !! u "text" = Some texts) as Ht by (by vm_compute).
  assert (batch !! u "language" = Some langs) as Hl by (by vm_compute).
  assert (length langs = length texts) as Hn by done.
  split; [exact Ht|]. split; [exact Hl|]. split; [exact Hn|].
  destruct (C3_batch_size (U:=ascii_db)) as [H _].
  destruct (H batch (u "text") (u "language") default_config texts Ht)
    as (out & Hout & Hlen & _).
  { intros langs' Hl'. rewrite Hl in Hl'. by injection Hl' as <-. }
  { unfold languages_of. rewrite Hl. cbn [default].
    intros [|[|[|[|i]]]] text lang; cbn; intros [= <-] [= <-]; done. }
  exists out. by split.
Defined.

(** C3, as stated, fails: on a batch whose two columns have one row each,
    a text and no language, batch_normalize_text raises instead of
    returning a text column. *)
Lemma C3_counterexample :
  length [VStr (u "Hi!")] = length [VNone]
  ∧ batch_normalize_text (U:=ascii_db)
      (<[u "text" := [VStr (u "Hi!")]]> (<[u "language" := [VNone]]> ∅))
      (u "text") (u "language") default_config
    = Raise AttributeError.
Proof. split; [done|by vm_compute]. Qed.

Lemma X16_batch_normalize_errors_witness :
  let batch : gmap (list Z) (list value) :=
    <[u "text" := [VNone; VStr (u "Hi!")]]>
      (<[u "language" := [VNone; VBytes (u "en")]]> ∅) in
  batch !! u "text" = Some [VNone; VStr (u "Hi!")]
  ∧ batch !! u "body" = None
  ∧ (∃ e, batch_normalize_text (U:=ascii_db) batch (u "text") (u "language")
            default_config = Raise e)
  ∧ batch_normalize_text (U:=ascii_db) batch (u "body") (u "language")
      default_config = Raise (KeyError (u "body")).
Proof.
  intros batch.
  assert (batch !! u "text" = Some [VNone; VStr (u "Hi!")]) as H
    by (by vm_compute).
  assert (batch !! u "body" = None) as Hb by (by vm_compute).
  split; [exact H|]. split; [exact Hb|]. split.
  - destruct (X16_batch_normalize_errors (U:=ascii_db) batch (u "text")
                (u "language") default_config) as (_ & Hrows & _).
    destruct (Hrows _ H) as ([_ Hraise] & _). apply Hraise.
    replace (languages_of batch (u "language") 2)
      with [VNone; VBytes (u "en")] by (by vm_compute).
    apply Exists_cons_tl, Exists_cons_hd. by split.
  - destruct (X16_batch_normalize_errors (U:=ascii_db) batch (u "body")
                (u "language") default_config) as (Hkey & _).
    exact (Hkey Hb).
Defined.

Lemma X17_batch_normalize_rows_witness :
  let texts := [VStr (u "Hi!"); VNone; VStr (u "Yo")] in
  let batch : gmap (list Z) (list value) :=
    <[u "text" := texts]> (<[u "language" := [VStr (u "en"); VNone]]> ∅) in
  batch !! u "text" = Some texts
  ∧ ∃ out,
      batch_normalize_text (U:=ascii_db) batch (u "text") (u "language")
        default_config = Ok (<[u "text" := out]> batch)
      ∧ length out = 2.
Proof.
  intros texts batch.
  assert (batch !! u "text" = Some texts) as H by (by vm_compute).
  split; [exact H|].
  destruct (X17_batch_normalize_rows (U:=ascii_db) batch (u "text")
              (u "language") default_config texts H) as (out & Ho & Hl & _).
  { replace (languages_of batch (u "language") (length texts))
      with [VStr (u "en"); VNone] by (by vm_compute).
    repeat constructor; done. }
  exists out. split; [exact Ho|]. rewrite Hl.
  replace (languages_of batch (u "language") (length texts))
    with [VStr (u "en"); VNone] by (by vm_compute).
  done.
Defined.
